(** * A block assembler and proof-of-work miner: model of [main.py]

    The development embeds the Python program in Gallina and proves (or
    refutes) properties of the transaction validator, the field codec, the
    Merkle root, the header serialisation and the nonce search.

    Conventions of the embedding:
    - a Python [str] is a list of characters ([str := list ascii]); a
      character stands for the code point of the same number (0..255);
    - a Python [int] is a [Z]; a [float] is a [spec_float] (binary64);
      a [bytes] object is a list of [Z] in [0,256);
    - a Python exception is the name of its class;
    - [time.time()] is an input of the model (the parameter [time_stamp]);
    - the unbounded [while True] loop is run with fuel: [None] means that the
      fuel ran out, never that the program stopped. *)

From Stdlib Require Import String DecimalString.
From Stdlib Require Import SpecFloat.
From Stdlib Require Import ZArith List Ascii Bool Lia Permutation.
Import ListNotations.
Open Scope Z_scope.

(* ================================================================== *)
(** * Python values and strings *)
(* ================================================================== *)

Definition str := list ascii.

(** A string literal of the source. *)
Definition lit (s : String.string) : str := String.list_ascii_of_string s.

Definition ord (c : ascii) : Z := Z.of_N (N_of_ascii c).

(** The values that occur in the transaction records and as results. *)
Inductive pyval : Type :=
| PyNone
| PyBool (b : bool)
| PyInt (z : Z)
| PyStr (s : str).

Definition str_eqb (a b : str) : bool :=
  if list_eq_dec ascii_dec a b then true else false.

(** Python's [==] on these values: [bool] is a subtype of [int], a string is
    equal to strings only. *)
Definition py_eq (a b : pyval) : bool :=
  match a, b with
  | PyNone, PyNone => true
  | PyBool x, PyBool y => Bool.eqb x y
  | PyBool x, PyInt y => (if x then 1 else 0) =? y
  | PyInt x, PyBool y => x =? (if y then 1 else 0)
  | PyInt x, PyInt y => x =? y
  | PyStr x, PyStr y => str_eqb x y
  | _, _ => false
  end.

(** Truth value of an object, as [if] and comprehension filters test it. *)
Definition truthy (v : pyval) : bool :=
  match v with
  | PyNone => false
  | PyBool b => b
  | PyInt z => negb (z =? 0)
  | PyStr s => match s with [] => false | _ => true end
  end.

(** Outcome of a call that may raise. *)
Inductive outcome (A : Type) : Type :=
| Returns (a : A)
| Raises (e : String.string).
Arguments Returns {A} a.
Arguments Raises {A} e.

Definition ValueError : String.string := "ValueError".
Definition TypeError : String.string := "TypeError".
Definition KeyError : String.string := "KeyError".
Definition OverflowError : String.string := "OverflowError".

Definition bind {A B : Type} (c : outcome A) (k : A -> outcome B) : outcome B :=
  match c with
  | Returns a => k a
  | Raises e => Raises e
  end.

Notation "x <- c ;; k" := (bind c (fun x => k))
  (at level 61, c at next level, right associativity).

(* ================================================================== *)
(** * Hexadecimal text: [format(n, "0Wx")], [int(s, 16)], [bytes.fromhex] *)
(* ================================================================== *)

Definition hexdigits : str := lit "0123456789abcdef".

Definition hexchar (d : Z) : ascii := nth (Z.to_nat d) hexdigits "0"%char.

(** Digits of a non-negative number, most significant first, in front of
    [acc]; at least one digit is produced. *)
Fixpoint hex_acc (fuel : nat) (n : Z) (acc : str) : str :=
  match fuel with
  | O => acc
  | S f =>
      let acc' := hexchar (n mod 16) :: acc in
      if n / 16 =? 0 then acc' else hex_acc f (n / 16) acc'
  end.

(** [format(n, "x")] for [0 <= n]. *)
Definition hex (n : Z) : str := hex_acc (S (Z.to_nat (Z.log2 n))) n [].

Definition zfill (width : nat) (s : str) : str :=
  repeat "0"%char (width - length s) ++ s.

(** [format(data, "0Wx")]: zero padding up to a minimum width [W], the sign
    counted in the width; digits are never dropped. *)
Definition format_0x (data : Z) (width : nat) : str :=
  if data <? 0 then "-"%char :: zfill (width - 1) (hex (- data))
  else zfill width (hex data).

(** Value of a hexadecimal digit, either case. *)
Definition hexval (c : ascii) : option Z :=
  let n := ord c in
  if (48 <=? n) && (n <=? 57) then Some (n - 48)
  else if (97 <=? n) && (n <=? 102) then Some (n - 87)
  else if (65 <=? n) && (n <=? 70) then Some (n - 55)
  else None.

Fixpoint int16_acc (s : str) (acc : Z) : option Z :=
  match s with
  | [] => Some acc
  | c :: r =>
      match hexval c with
      | Some d => int16_acc r (acc * 16 + d)
      | None => None
      end
  end.

(** [int(s, 16)] on a string of hexadecimal digits; [None] is [ValueError].
    The other spellings Python reads (a sign, a [0x] prefix, underscores,
    surrounding blanks) are not produced by the program and are outside
    this model. *)
Definition int16 (s : str) : option Z :=
  match s with
  | [] => None
  | _ => int16_acc s 0
  end.

(** ASCII white space, which [bytes.fromhex] skips in front of a byte. *)
Definition isspace (c : ascii) : bool :=
  let n := ord c in ((9 <=? n) && (n <=? 13)) || (n =? 32).

(** [bytes.fromhex(data)]; [None] is [ValueError]. *)
Fixpoint fromhex (data : str) : option (list Z) :=
  match data with
  | [] => Some []
  | a :: rest =>
      if isspace a then fromhex rest
      else
        match rest with
        | [] => None
        | b :: rest' =>
            match hexval a, hexval b, fromhex rest' with
            | Some h, Some l, Some bs => Some (h * 16 + l :: bs)
            | _, _, _ => None
            end
        end
  end.

(** [bytes.hex()] / [hexdigest()]: two lower-case digits per byte. *)
Definition hexlify (bs : list Z) : str :=
  flat_map (fun b => [hexchar (b / 16); hexchar (b mod 16)]) bs.

(** [str.encode()]: UTF-8 of code points below 256. *)
Definition utf8 (c : ascii) : list Z :=
  let n := ord c in
  if n <? 128 then [n] else [192 + n / 64; 128 + n mod 64].

Definition encode (s : str) : list Z := flat_map utf8 s.

(* ================================================================== *)
(** * [hashlib.sha256] (FIPS 180-4) on 32-bit words held in [Z] *)
(* ================================================================== *)

Module SHA256.

Definition w32 (x : Z) : Z := x mod 2 ^ 32.
Definition add32 (x y : Z) : Z := w32 (x + y).
Definition rotr (n x : Z) : Z :=
  Z.lor (Z.shiftr x n) (w32 (Z.shiftl x (32 - n))).
Definition shr (n x : Z) : Z := Z.shiftr x n.
Definition not32 (x : Z) : Z := Z.lxor x 0xffffffff.

Definition Ch (x y z : Z) : Z := Z.lxor (Z.land x y) (Z.land (not32 x) z).
Definition Maj (x y z : Z) : Z :=
  Z.lxor (Z.lxor (Z.land x y) (Z.land x z)) (Z.land y z).
Definition Sigma0 (x : Z) : Z :=
  Z.lxor (Z.lxor (rotr 2 x) (rotr 13 x)) (rotr 22 x).
Definition Sigma1 (x : Z) : Z :=
  Z.lxor (Z.lxor (rotr 6 x) (rotr 11 x)) (rotr 25 x).
Definition sigma0 (x : Z) : Z :=
  Z.lxor (Z.lxor (rotr 7 x) (rotr 18 x)) (shr 3 x).
Definition sigma1 (x : Z) : Z :=
  Z.lxor (Z.lxor (rotr 17 x) (rotr 19 x)) (shr 10 x).

(** The integer part of the [k]-th root of [n], by bisection between [lo]
    and [hi], where [lo ^ k <= n < hi ^ k]. *)
Fixpoint root_between (fuel : nat) (k n lo hi : Z) : Z :=
  match fuel with
  | O => lo
  | S f =>
      if hi - lo <=? 1 then lo
      else
        let mid := (lo + hi) / 2 in
        if mid ^ k <=? n then root_between f k n mid hi
        else root_between f k n lo mid
  end.

(** The first 32 bits of the fractional part of the [k]-th root of [p],
    for [k] = 2 or 3 and [p] below 512. *)
Definition root_fraction (k p : Z) : Z :=
  w32 (root_between 40 k (p * 2 ^ (32 * k)) 0 (2 ^ 36)).

Definition is_prime (n : Z) : bool :=
  forallb (fun d => negb (n mod Z.of_nat d =? 0)) (seq 2 (Z.to_nat n - 2)).

(** The first 64 prime numbers, 2 to 311. *)
Definition primes : list Z :=
  Eval vm_compute in filter is_prime (map Z.of_nat (seq 2 310)).

(** The round constants: cube roots of the first 64 primes. *)
Definition K : list Z := Eval vm_compute in map (root_fraction 3) primes.

(** The eight working registers. *)
Record regs : Type := Regs { ra : Z; rb : Z; rc : Z; rd : Z;
                             re : Z; rf : Z; rg : Z; rh : Z }.

(** The initial hash value: square roots of the first 8 primes. *)
Definition H0 : regs :=
  Eval vm_compute in
    let r i := root_fraction 2 (nth i primes 0) in
    Regs (r 0%nat) (r 1%nat) (r 2%nat) (r 3%nat)
         (r 4%nat) (r 5%nat) (r 6%nat) (r 7%nat).

(** Big-endian bytes of a number. *)
Definition be_bytes (count : nat) (n : Z) : list Z :=
  map (fun i => (n / 2 ^ (8 * Z.of_nat i)) mod 256) (rev (seq 0 count)).

(** The message, a [1] bit, zero bytes up to 56 modulo 64, and the bit
    length on 8 bytes. *)
Definition pad (msg : list Z) : list Z :=
  let l := Z.of_nat (length msg) in
  msg ++ [128] ++ repeat 0 (Z.to_nat ((55 - l) mod 64)) ++ be_bytes 8 (8 * l).

Fixpoint words (bs : list Z) : list Z :=
  match bs with
  | a :: b :: c :: d :: r => w32 (((a * 256 + b) * 256 + c) * 256 + d) :: words r
  | _ => []
  end.

Fixpoint blocks (fuel : nat) (bs : list Z) : list (list Z) :=
  match fuel, bs with
  | S f, _ :: _ => words (firstn 64 bs) :: blocks f (skipn 64 bs)
  | _, _ => []
  end.

(** The message schedule, [n] words from a window of the last sixteen. *)
Fixpoint schedule (n : nat) (win : list Z) : list Z :=
  match n, win with
  | S n', w0 :: rest =>
      let w16 := add32 (add32 (sigma1 (nth 14 win 0)) (nth 9 win 0))
                       (add32 (sigma0 (nth 1 win 0)) w0) in
      w0 :: schedule n' (rest ++ [w16])
  | _, _ => []
  end.

Definition round (s : regs) (kw : Z * Z) : regs :=
  let t1 := add32 (add32 (add32 (rh s) (Sigma1 (re s)))
                         (add32 (Ch (re s) (rf s) (rg s)) (fst kw)))
                  (snd kw) in
  let t2 := add32 (Sigma0 (ra s)) (Maj (ra s) (rb s) (rc s)) in
  Regs (add32 t1 t2) (ra s) (rb s) (rc s)
       (add32 (rd s) t1) (re s) (rf s) (rg s).

Definition compress (h : regs) (block : list Z) : regs :=
  let s := fold_left round (combine K (schedule 64 block)) h in
  Regs (add32 (ra h) (ra s)) (add32 (rb h) (rb s))
       (add32 (rc h) (rc s)) (add32 (rd h) (rd s))
       (add32 (re h) (re s)) (add32 (rf h) (rf s))
       (add32 (rg h) (rg s)) (add32 (rh h) (rh s)).

Definition digest_bytes (h : regs) : list Z :=
  flat_map (be_bytes 4) [ra h; rb h; rc h; rd h; re h; rf h; rg h; rh h].

(** [hashlib.sha256(msg).digest()] *)
Definition sha256 (msg : list Z) : list Z :=
  let p := pad msg in
  digest_bytes (fold_left compress (blocks (length p) p) H0).

End SHA256.

(** [hashlib.sha256(msg).hexdigest()] *)
Definition sha256_hexdigest (msg : list Z) : str := hexlify (SHA256.sha256 msg).

(* ================================================================== *)
(** * [json.dumps] with its default separators and [ensure_ascii] *)
(* ================================================================== *)

#[local] Unset Elimination Schemes.
Inductive json : Type :=
| JNull
| JBool (b : bool)
| JInt (z : Z)
| JFloat (f : spec_float)
| JStr (s : str)
| JList (l : list json)
| JDict (items : list (str * json)).
#[local] Set Elimination Schemes.

Definition dquote : ascii := ascii_of_nat 34.
Definition bslash : ascii := ascii_of_nat 92.

(** [sep.join(l)] *)
Definition join (sep : str) (l : list str) : str :=
  match l with
  | [] => []
  | x :: r => x ++ flat_map (fun y => sep ++ y) r
  end.

(** One character inside a JSON string: the printable ASCII characters stand
    for themselves, the others are escaped. *)
Definition json_escape (c : ascii) : str :=
  let n := ord c in
  if n =? 34 then [bslash; dquote]
  else if n =? 92 then [bslash; bslash]
  else if n =? 10 then [bslash; "n"%char]
  else if n =? 13 then [bslash; "r"%char]
  else if n =? 9 then [bslash; "t"%char]
  else if n =? 8 then [bslash; "b"%char]
  else if n =? 12 then [bslash; "f"%char]
  else if (32 <=? n) && (n <=? 126) then [c]
  else bslash :: "u"%char :: zfill 4 (hex n).

Definition json_str (s : str) : str :=
  dquote :: flat_map json_escape s ++ [dquote].

Definition json_int (z : Z) : str := lit (NilZero.string_of_int (Z.to_int z)).

(** [d * 10^k] against [n * 2^q], for [d] and [n] not negative. *)
Definition compare_dec_bin (d k n q : Z) : comparison :=
  Z.compare (d * 10 ^ Z.max k 0 * 2 ^ Z.max (- q) 0)
            (n * 2 ^ Z.max q 0 * 10 ^ Z.max (- k) 0).

(** The least [p] from [p] on with [m * 2^e < 10^p]. *)
Fixpoint decimal_point (fuel : nat) (m e p : Z) : Z :=
  match fuel with
  | O => p
  | S f =>
      match compare_dec_bin 1 p m e with
      | Gt => p
      | _ => decimal_point f m e (p + 1)
      end
  end.

Fixpoint strip_zeros (fuel : nat) (d : Z) : Z :=
  match fuel with
  | O => d
  | S f => if (d mod 10 =? 0) && negb (d =? 0) then strip_zeros f (d / 10) else d
  end.

(** The shortest decimal that reads back as the float [m * 2^e] (the one
    nearest to it when there are several), searched among the decimals of
    [n] digits and more: its digits as a number without trailing zeros, and
    the position of its decimal point ([0.digits * 10^point]). A decimal
    reads back as the float when it lies between the middle points to the
    neighbouring floats, which count when [m] is even. *)
Fixpoint shortest (fuel : nat) (m e point n : Z) : Z * Z :=
  let k := point - n in
  let low := (m * 2 ^ Z.max e 0 * 10 ^ Z.max (- k) 0)
             / (2 ^ Z.max (- e) 0 * 10 ^ Z.max k 0) in
  let high := low + 1 in
  let boundary := (m =? 2 ^ 52) && (-1074 <? e) in
  let below := if boundary then 4 * m - 1 else 4 * m - 2 in
  let above := 4 * m + 2 in
  let inside d :=
    match compare_dec_bin d k below (e - 2), compare_dec_bin d k above (e - 2) with
    | Gt, Lt => true
    | Eq, Lt | Gt, Eq | Eq, Eq => Z.even m
    | _, _ => false
    end in
  let finish d := (strip_zeros 20 d, k + Z.of_nat (length (json_int d))) in
  let nearest :=
    match compare_dec_bin (2 * low + 1) k (8 * m) (e - 2) with
    | Lt => high
    | _ => low
    end in
  match fuel with
  | O => finish nearest
  | S f =>
      if inside low && inside high then finish nearest
      else if inside low then finish low
      else if inside high then finish high
      else shortest f m e point (n + 1)
  end.

Definition zeros (n : Z) : str := repeat "0"%char (Z.to_nat n).

(** [repr] of a positive float from its digits and decimal point: with an
    exponent when the point is at -4 or before, or after 16. *)
Definition layout (digits point : Z) : str :=
  let ds := json_int digits in
  let nd := Z.of_nat (length ds) in
  if (point <=? -4) || (16 <? point) then
    let exponent := point - 1 in
    let mantissa :=
      match ds with
      | [] => []
      | d :: rest => match rest with [] => [d] | _ => d :: "."%char :: rest end
      end in
    mantissa ++ lit "e" ++ (if exponent <? 0 then lit "-" else lit "+")
    ++ (if Z.abs exponent <? 10 then lit "0" else []) ++ json_int (Z.abs exponent)
  else if point <=? 0 then lit "0." ++ zeros (- point) ++ ds
  else if nd <=? point then ds ++ zeros (point - nd) ++ lit ".0"
  else firstn (Z.to_nat point) ds ++ lit "." ++ skipn (Z.to_nat point) ds.

(** A float as [json.dumps] writes it: [float.__repr__], and [NaN],
    [Infinity], [-Infinity] for the values that are not finite. *)
Definition float_repr (f : spec_float) : str :=
  match f with
  | S754_nan => lit "NaN"
  | S754_infinity false => lit "Infinity"
  | S754_infinity true => lit "-Infinity"
  | S754_zero false => lit "0.0"
  | S754_zero true => lit "-0.0"
  | S754_finite s m e =>
      let bits := Z.log2 (Zpos m) + 1 + e in
      let p0 := ((bits - 1) * 30102) / 100000 - 1 in
      let point := decimal_point 8 (Zpos m) e p0 in
      let '(digits, point') := shortest 17 (Zpos m) e point 1 in
      (if s then lit "-" else []) ++ layout digits point'
  end.

(** Order of Python strings: lexicographic on code points. *)
Fixpoint str_ltb (a b : str) : bool :=
  match a, b with
  | _, [] => false
  | [], _ :: _ => true
  | x :: a', y :: b' =>
      (ord x <? ord y) || ((ord x =? ord y) && str_ltb a' b')
  end.

Fixpoint insert_item (kv : str * str) (l : list (str * str)) : list (str * str) :=
  match l with
  | [] => [kv]
  | h :: t => if str_ltb (fst kv) (fst h) then kv :: l else h :: insert_item kv t
  end.

Definition sort_items (l : list (str * str)) : list (str * str) :=
  fold_right insert_item [] l.

(** [json.dumps(j, sort_keys=sort_keys)]; a dictionary lists its keys in
    insertion order unless [sort_keys] is set. *)
Fixpoint dumps (sort_keys : bool) (j : json) : str :=
  match j with
  | JNull => lit "null"
  | JBool true => lit "true"
  | JBool false => lit "false"
  | JInt z => json_int z
  | JFloat f => float_repr f
  | JStr s => json_str s
  | JList l => lit "[" ++ join (lit ", ") (map (dumps sort_keys) l) ++ lit "]"
  | JDict items =>
      let rendered := map (fun kv => let '(k, v) := kv in (k, dumps sort_keys v)) items in
      let ordered := if sort_keys then sort_items rendered else rendered in
      lit "{"
      ++ join (lit ", ") (map (fun kv => json_str (fst kv) ++ lit ": " ++ snd kv) ordered)
      ++ lit "}"
  end.

(** [d[k]] as an option, and [d[k] = v] on the items of a dictionary: the
    value of an existing key is replaced where it stands, a new key goes to
    the end. *)
Fixpoint dict_get (k : str) (items : list (str * json)) : option json :=
  match items with
  | [] => None
  | (k', v) :: rest => if str_eqb k' k then Some v else dict_get k rest
  end.

Fixpoint dict_set (k : str) (v : json) (items : list (str * json))
  : list (str * json) :=
  match items with
  | [] => [(k, v)]
  | (k', v') :: rest =>
      if str_eqb k' k then (k', v) :: rest else (k', v') :: dict_set k v rest
  end.

Definition json_of_pyval (v : pyval) : json :=
  match v with
  | PyNone => JNull
  | PyBool b => JBool b
  | PyInt z => JInt z
  | PyStr s => JStr s
  end.

(* ================================================================== *)
(** * Transactions *)
(* ================================================================== *)

Definition MIN_OUTPUT_VALUE : Z := 0.
Definition MAX_OUTPUT_VALUE : Z := 21000000.
Definition MAX_BLOCK_SIZE : Z := 4000000.
Definition MAX_VOUT : Z := 2 ^ 32 - 1.

(** [sys.maxsize] of a 64-bit CPython. *)
Definition sys_maxsize : Z := 2 ^ 63 - 1.

(** The dictionaries that the program builds itself and the well-formed
    ones of the pool, as records: every key is there and every number is an
    integer. What [json.load] can give beyond that (a missing key, a float,
    NaN, a value of another type) is outside these records; the validator on
    any loaded value is [validate_transaction_json] below, which agrees with
    [validate_transaction] on the dictionary of a record
    ([validate_transaction_records]). *)
Record prevout_t : Type := Prevout {
  po_scriptpubkey : str;
  po_value : Z }.

(** An input; [in_prevout = None] is a dictionary without that key. The
    [txid] of an input is a string in the pool and the integer 0 in the
    coinbase transaction. *)
Record tx_input : Type := Input {
  in_txid : pyval;
  in_vout : Z;
  in_prevout : option prevout_t }.

Record tx_output : Type := Output {
  out_scriptpubkey : str;
  out_value : Z }.

Record transaction : Type := Transaction {
  version : Z;
  locktime : Z;
  txid : str;
  vin : list tx_input;
  vout : list tx_output }.

Definition dict_of_prevout (p : prevout_t) : json :=
  JDict [(lit "scriptpubkey", JStr (po_scriptpubkey p));
         (lit "value", JInt (po_value p))].

Definition dict_of_input (i : tx_input) : json :=
  JDict ([(lit "txid", json_of_pyval (in_txid i));
          (lit "vout", JInt (in_vout i))]
         ++ match in_prevout i with
            | Some p => [(lit "prevout", dict_of_prevout p)]
            | None => []
            end).

Definition dict_of_output (o : tx_output) : json :=
  JDict [(lit "scriptpubkey", JStr (out_scriptpubkey o));
         (lit "value", JInt (out_value o))].

(** The dictionary a record stands for, keys in the order in which
    [create_coinbase_transaction] writes them. The program only takes the
    length of its unsorted dump and the text of its sorted dump, and neither
    depends on that order. *)
Definition dict_of_transaction (t : transaction) : json :=
  JDict [(lit "version", JInt (version t));
         (lit "locktime", JInt (locktime t));
         (lit "txid", JStr (txid t));
         (lit "vin", JList (map dict_of_input (vin t)));
         (lit "vout", JList (map dict_of_output (vout t)))].

(** The loop over the outputs of [validate_transaction]: [None] when an
    output value is out of range ([return False] inside the loop), the
    total otherwise. *)
Fixpoint sum_outputs (outputs : list tx_output) (total : Z) : option Z :=
  match outputs with
  | [] => Some total
  | output :: rest =>
      let value := out_value output in
      if (value <? MIN_OUTPUT_VALUE) || (value >? MAX_OUTPUT_VALUE) then None
      else sum_outputs rest (total + value)
  end.

(** [input["txid"] == "0" and input["vout"] == -1] *)
Definition is_coinbase_reference (input : tx_input) : bool :=
  py_eq (in_txid input) (PyStr (lit "0")) && (in_vout input =? -1).

Definition is_empty {A : Type} (l : list A) : bool :=
  match l with [] => true | _ => false end.

(** [validate_transaction] on a record: every rejection is
    [return False]; a transaction that passes every test reaches the end of
    the function, which has no [return], so the call evaluates to [None].
    No access can fail on a record, and its dump is long enough for the
    size test ([serialized_size_bound]). *)
Definition validate_transaction (transaction : transaction) : pyval :=
  if is_empty (vin transaction) || is_empty (vout transaction) then PyBool false
  else
    match sum_outputs (vout transaction) 0 with
    | None => PyBool false
    | Some total =>
        if (total >? MAX_OUTPUT_VALUE) || (total <? MIN_OUTPUT_VALUE) then PyBool false
        else if existsb is_coinbase_reference (vin transaction) then PyBool false
        else if (locktime transaction >? sys_maxsize) || (locktime transaction <? 0)
        then PyBool false
        else
          let transaction_size_bytes :=
            Z.of_nat (length (dumps false (dict_of_transaction transaction))) in
          if transaction_size_bytes <? 100 then PyBool false
          else PyNone
    end.

(** [serialize_transaction]: [json.dumps(transaction, sort_keys=True)] *)
Definition serialize_transaction (transaction : transaction) : str :=
  dumps true (dict_of_transaction transaction).

Definition create_coinbase_transaction : transaction :=
  {| version := 2;
     locktime := 0;
     txid := lit "coinbase_txid_placeholder";
     vin := [ {| in_txid := PyInt 0;
                 in_vout := MAX_VOUT;
                 in_prevout := Some {| po_scriptpubkey := lit "coinbase_scriptpubkey";
                                       po_value := 50 |} |} ];
     vout := [ {| out_scriptpubkey := lit "coinbase_scriptpubkey";
                  out_value := 50 |} ] |}.

(* ================================================================== *)
(** * [validate_transaction] on a dictionary as [json.load] gives it *)
(* ================================================================== *)

(** A Python number: [int] (and [bool], which is 0 or 1) or [float]. *)
Inductive num : Type :=
| NInt (z : Z)
| NFloat (f : spec_float).

Definition to_num (j : json) : option num :=
  match j with
  | JBool b => Some (NInt (if b then 1 else 0))
  | JInt z => Some (NInt z)
  | JFloat f => Some (NFloat f)
  | _ => None
  end.

(** The exact value of a number: [n * 2^e], an infinity or no number. *)
Inductive exact : Type :=
| ENaN
| ENegInf
| EPosInf
| EFin (n e : Z).

Definition exact_of (x : num) : exact :=
  match x with
  | NInt z => EFin z 0
  | NFloat (S754_zero _) => EFin 0 0
  | NFloat (S754_infinity s) => if s then ENegInf else EPosInf
  | NFloat S754_nan => ENaN
  | NFloat (S754_finite s m e) => EFin (if s then Z.neg m else Z.pos m) e
  end.

(** Comparison of two numbers; Python compares an [int] and a [float] by
    their exact values. [None]: one of them is NaN, and every test is
    false. *)
Definition num_compare (a b : num) : option comparison :=
  match exact_of a, exact_of b with
  | ENaN, _ | _, ENaN => None
  | ENegInf, ENegInf => Some Eq
  | ENegInf, _ => Some Lt
  | _, ENegInf => Some Gt
  | EPosInf, EPosInf => Some Eq
  | EPosInf, _ => Some Gt
  | _, EPosInf => Some Lt
  | EFin n1 e1, EFin n2 e2 =>
      let e := Z.min e1 e2 in
      Some (Z.compare (n1 * 2 ^ (e1 - e)) (n2 * 2 ^ (e2 - e)))
  end.

Definition num_lt (a b : num) : bool :=
  match num_compare a b with Some Lt => true | _ => false end.

Definition num_gt (a b : num) : bool :=
  match num_compare a b with Some Gt => true | _ => false end.

Definition num_eq (a b : num) : bool :=
  match num_compare a b with Some Eq => true | _ => false end.

(** [float(z)]: rounded to the nearest float, [OverflowError] when the
    integer is too large. *)
Definition float_of_int (z : Z) : outcome spec_float :=
  match binary_normalize 53 1024 z 0 false with
  | S754_infinity _ => Raises OverflowError
  | f => Returns f
  end.

(** [a + b]: exact on two integers, the float sum otherwise. *)
Definition num_add (a b : num) : outcome num :=
  match a, b with
  | NInt x, NInt y => Returns (NInt (x + y))
  | NInt x, NFloat g => f <- float_of_int x ;; Returns (NFloat (SFadd 53 1024 f g))
  | NFloat f, NInt y => g <- float_of_int y ;; Returns (NFloat (SFadd 53 1024 f g))
  | NFloat f, NFloat g => Returns (NFloat (SFadd 53 1024 f g))
  end.

(** [object[key]] for a string [key]: [KeyError] on a dictionary without
    the key, [TypeError] on a value of another type. *)
Definition getitem (object : json) (key : str) : outcome json :=
  match object with
  | JDict items =>
      match dict_get key items with
      | Some v => Returns v
      | None => Raises KeyError
      end
  | _ => Raises TypeError
  end.

(** Truth value of a loaded value. *)
Definition truth (j : json) : bool :=
  match j with
  | JNull => false
  | JBool b => b
  | JInt z => negb (z =? 0)
  | JFloat (S754_zero _) => false
  | JFloat _ => true
  | JStr s => negb (is_empty s)
  | JList l => negb (is_empty l)
  | JDict items => negb (is_empty items)
  end.

(** The elements that [for x in j] goes through: the elements of a list,
    the keys of a dictionary, the characters of a string. *)
Definition iterate (j : json) : outcome (list json) :=
  match j with
  | JList l => Returns l
  | JDict items => Returns (map (fun kv => JStr (fst kv)) items)
  | JStr s => Returns (map (fun c => JStr [c]) s)
  | _ => Raises TypeError
  end.

(** [a < b] and [a > b] for an integer [b]: [TypeError] when [a] is not a
    number. *)
Definition py_lt (a : json) (b : Z) : outcome bool :=
  match to_num a with
  | Some n => Returns (num_lt n (NInt b))
  | None => Raises TypeError
  end.

Definition py_gt (a : json) (b : Z) : outcome bool :=
  match to_num a with
  | Some n => Returns (num_gt n (NInt b))
  | None => Raises TypeError
  end.

(** [a == b] for an integer and for a string [b]; [==] never raises. *)
Definition json_eq_int (a : json) (b : Z) : bool :=
  match to_num a with
  | Some n => num_eq n (NInt b)
  | None => false
  end.

Definition json_eq_str (a : json) (b : str) : bool :=
  match a with
  | JStr s => str_eqb s b
  | _ => false
  end.

(** The loop over the outputs: [Returns None] is the [return False] inside
    the loop, [Returns (Some total)] the end of the loop. *)
Fixpoint outputs_loop (outputs : list json) (total : num) : outcome (option num) :=
  match outputs with
  | [] => Returns (Some total)
  | output :: rest =>
      value <- getitem output (lit "value") ;;
      below <- py_lt value MIN_OUTPUT_VALUE ;;
      if below then Returns None
      else
        above <- py_gt value MAX_OUTPUT_VALUE ;;
        if above then Returns None
        else
          match to_num value with
          | Some n => total' <- num_add total n ;; outputs_loop rest total'
          | None => Raises TypeError
          end
  end.

(** The loop over the inputs: [Returns true] is its [return False]. The
    index of an input is read only when its [txid] is the string [0]. *)
Fixpoint inputs_loop (inputs : list json) : outcome bool :=
  match inputs with
  | [] => Returns false
  | input :: rest =>
      t <- getitem input (lit "txid") ;;
      if json_eq_str t (lit "0") then
        v <- getitem input (lit "vout") ;;
        if json_eq_int v (-1) then Returns true else inputs_loop rest
      else inputs_loop rest
  end.

(** [validate_transaction(transaction)], statement by statement. *)
Definition validate_transaction_json (transaction : json) : outcome pyval :=
  vin <- getitem transaction (lit "vin") ;;
  empty <- (if negb (truth vin) then Returns true
            else vout <- getitem transaction (lit "vout") ;;
                 Returns (negb (truth vout))) ;;
  if (empty : bool) then Returns (PyBool false)
  else
    vout <- getitem transaction (lit "vout") ;;
    outputs <- iterate vout ;;
    total <- outputs_loop outputs (NInt 0) ;;
    match total with
    | None => Returns (PyBool false)
    | Some total =>
        if num_gt total (NInt MAX_OUTPUT_VALUE) || num_lt total (NInt MIN_OUTPUT_VALUE)
        then Returns (PyBool false)
        else
          vin <- getitem transaction (lit "vin") ;;
          inputs <- iterate vin ;;
          coinbase <- inputs_loop inputs ;;
          if (coinbase : bool) then Returns (PyBool false)
          else
            locktime <- getitem transaction (lit "locktime") ;;
            late <- py_gt locktime sys_maxsize ;;
            early <- (if (late : bool) then Returns true else py_lt locktime 0) ;;
            if (early : bool) then Returns (PyBool false)
            else
              let transaction_size_bytes :=
                Z.of_nat (length (dumps false transaction)) in
              if transaction_size_bytes <? 100 then Returns (PyBool false)
              else Returns PyNone
    end.

(* ================================================================== *)
(** * The helpers nested in [mining] *)
(* ================================================================== *)

(** [hash256(data)]: SHA-256 twice over the bytes that the hexadecimal text
    [data] spells; [None] is the [ValueError] of [bytes.fromhex]. *)
Definition hash256 (data : str) : option str :=
  match fromhex data with
  | Some binary => Some (sha256_hexdigest (SHA256.sha256 binary))
  | None => None
  end.

(** [field(data, size)]: [format(data, "0{}x".format(size * 2))]. *)
Definition field (data : Z) (size : nat) : str := format_0x data (size * 2).

(** [[data[i : i + 2] for i in range(0, len(data), 2)]]. *)
Fixpoint chunks2 (data : str) : list str :=
  match data with
  | [] => []
  | [a] => [[a]]
  | a :: b :: rest => [a; b] :: chunks2 rest
  end.

(** [reversebytes(data)]: the chunks joined in reversed order. *)
Definition reversebytes (data : str) : str := concat (rev (chunks2 data)).

(* ================================================================== *)
(** * Header and nonce search: [mining] *)
(* ================================================================== *)

Definition prevblock : str :=
  lit "000000000002d01c1fccc21636b607dfd930d31d01c3a62104612a1719011250".

(** SHA-256, once, of the identifiers joined in order, as text. *)
Definition merkle_text (txids : list str) : str := concat txids.

Definition merkle_root (txids : list str) : str :=
  sha256_hexdigest (encode (merkle_text txids)).

(** The serialized header without its nonce, for the time [time_stamp] that
    [int(time.time())] returned. The previous-block hash is the constant
    [prevblock]; [mining] has no parameter for it. *)
Definition header (time_stamp : Z) (transactions : list transaction) : str :=
  let version := 2 in
  let txids := map txid transactions in
  let merkleroot := merkle_root txids in
  reversebytes (field version 4)
  ++ reversebytes prevblock
  ++ reversebytes merkleroot
  ++ reversebytes (field time_stamp 4).

Definition attempt_of (header : str) (nonce : Z) : str :=
  header ++ reversebytes (field nonce 4).

(** What one pass through the body of the [while True] loop does. *)
Inductive verdict : Type :=
| Solved (block_header result : str)
| Retry
| Failed (e : String.string).

(** The body of the loop at the nonce [nonce]: it raises when
    [bytes.fromhex] or [int(_, 16)] does, executes [return header, result]
    when the reversed digest is below the target, and otherwise falls
    through to [nonce += 1]. *)
Definition iteration (header target : str) (nonce : Z) : verdict :=
  let attempt := attempt_of header nonce in
  match hash256 attempt with
  | None => Failed ValueError
  | Some digest =>
      let result := reversebytes digest in
      match int16 result, int16 target with
      | Some r, Some t => if r <? t then Solved header result else Retry
      | _, _ => Failed ValueError
      end
  end.

(** The loop from the nonce [nonce], at most [fuel] passes: [None] when the
    fuel is used up. *)
Fixpoint mining_loop (fuel : nat) (header target : str) (nonce : Z)
  : option (outcome (str * str)) :=
  match fuel with
  | O => None
  | S fuel' =>
      match iteration header target nonce with
      | Solved block_header result => Some (Returns (block_header, result))
      | Failed e => Some (Raises e)
      | Retry => mining_loop fuel' header target (nonce + 1)
      end
  end.

(** [mining(target, transactions)] *)
Definition mining (fuel : nat) (time_stamp : Z) (target : str)
    (transactions : list transaction) : option (outcome (str * str)) :=
  mining_loop fuel (header time_stamp transactions) target 0.

(* ================================================================== *)
(** * [main] *)
(* ================================================================== *)

(** [[tx for tx in transactions if validate_transaction(tx)]] *)
Definition valid_transactions (transactions : list transaction) : list transaction :=
  filter (fun tx => truthy (validate_transaction tx)) transactions.

(** [[coinbase_tx] + valid_transactions], the list passed to [mining]. *)
Definition transactions_for_block (transactions : list transaction) : list transaction :=
  [create_coinbase_transaction] ++ valid_transactions transactions.

Definition difficulty_target : str :=
  lit "0000ffff00000000000000000000000000000000000000000000000000000000".

(** The lines written to [output.txt], each followed by a line feed when
    written: the header (a string, dumped as a JSON string), the coinbase
    transaction, and the identifier of every valid transaction. *)
Definition output_lines (block_header : str) (transactions : list transaction)
  : list str :=
  dumps true (JStr block_header)
  :: serialize_transaction create_coinbase_transaction
  :: map txid (valid_transactions transactions).



(* ================================================================== *)
(** * [read_transactions_from_mempool] and [construct_block_header] *)
(* ================================================================== *)

(** [s.endswith(suffix)] *)
Definition endswith (s suffix : str) : bool :=
  (length suffix <=? length s)%nat
  && str_eqb (skipn (length s - length suffix) s) suffix.

(** The body of the loop of [read_transactions_from_mempool] on the value
    [data] that [json.load] returned: the identifier is the SHA-256 of the
    dump of [data] as loaded, and it is stored under the key [txid]. Item
    assignment raises [TypeError] on a value that is not a dictionary. *)
Definition with_txid (data : json) : outcome json :=
  let digest := sha256_hexdigest (encode (dumps false data)) in
  match data with
  | JDict items => Returns (JDict (dict_set (lit "txid") (JStr digest) items))
  | _ => Raises TypeError
  end.

(** [read_transactions_from_mempool] on the directory listing [files]: the
    names in the order of [os.listdir], each with the value that
    [json.load] gives for its content. *)
Fixpoint read_transactions_from_mempool (files : list (str * json))
  : outcome (list json) :=
  match files with
  | [] => Returns []
  | (filename, data) :: rest =>
      if endswith filename (lit ".json") then
        match with_txid data with
        | Raises e => Raises e
        | Returns d =>
            match read_transactions_from_mempool rest with
            | Returns l => Returns (d :: l)
            | Raises e => Raises e
            end
        end
      else read_transactions_from_mempool rest
  end.

(** The dictionary that [construct_block_header] returns. *)
Record block_header_fields : Type := BlockHeader {
  bh_version : Z;
  bh_prev_block_hash : str;
  bh_merkle_root : str;
  bh_time : Z;
  bh_nonce : Z }.

Definition construct_block_header (time_stamp : Z)
    (transactions : list transaction) (prev_block_hash : str) (nonce : Z)
  : block_header_fields :=
  let txids := map txid transactions in
  let merkle_root := merkle_root txids in
  let version := 2 in
  {| bh_version := version;
     bh_prev_block_hash := prev_block_hash;
     bh_merkle_root := merkle_root;
     bh_time := time_stamp;
     bh_nonce := nonce |}.

(* ================================================================== *)
(** * Predicates and data used in the statements *)
(* ================================================================== *)

Definition is_hexdigit (c : ascii) : bool :=
  match hexval c with Some _ => true | None => false end.

Definition is_hexstr (s : str) : bool := forallb is_hexdigit s.

(** A text made of hexadecimal digits only. *)
Definition hex_text (s : str) : Prop := Forall (fun c => is_hexdigit c = true) s.

Definition is_byte (b : Z) : Prop := 0 <= b < 256.

(** One past the largest number that fits the 4-byte nonce field. *)
Definition nonce_limit : Z := 2 ^ 32.

(** [header[8:72]] *)
Definition prev_hash_part (header : str) : str := firstn 64 (skipn 8 header).

Definition value_in_range (o : tx_output) : Prop := 0 <= out_value o <= 21000000.

Definition sum_values (outputs : list tx_output) : Z :=
  fold_right (fun o acc => out_value o + acc) 0 outputs.

Definition output_total (t : transaction) : Z := sum_values (vout t).

Definition serialized_size (t : transaction) : Z :=
  Z.of_nat (length (dumps false (dict_of_transaction t))).

(** The admission rules 2 to 6 as the specification words them. *)
Definition admission_rules (t : transaction) : Prop :=
  Forall value_in_range (vout t) /\
  0 <= output_total t <= 21000000 /\
  Forall (fun i => ~ (in_txid i = PyStr (lit "0") /\ in_vout i = -1)) (vin t) /\
  0 <= locktime t <= sys_maxsize /\
  100 <= serialized_size t.

(** A pool of three transactions: two that pass every rule and, between
    them, one whose outputs are each in range but add up to 22,000,000. *)
Definition sample_input (n : Z) : tx_input :=
  {| in_txid := PyStr (lit "3b7dc918e5671037effad7848727da3d3bf302b05f5ded9bec89449460473bbb");
     in_vout := n;
     in_prevout := Some {| po_scriptpubkey := lit "0014cbc0a8a6e6e13d1e6d3a8fd5d9a3a29adf6ae1f5";
                           po_value := 500000 |} |}.

Definition sample_output (v : Z) : tx_output :=
  {| out_scriptpubkey := lit "0014cbc0a8a6e6e13d1e6d3a8fd5d9a3a29adf6ae1f5";
     out_value := v |}.

Definition tx_a : transaction :=
  {| version := 2; locktime := 0;
     txid := lit "00000a2d0a0ccd2bb1ba622d0a0ccd2bb1ba622d0a0ccd2bb1ba622d0a0ccd2b";
     vin := [sample_input 0]; vout := [sample_output 400000] |}.

Definition tx_over : transaction :=
  {| version := 2; locktime := 0;
     txid := lit "111112d0a0ccd2bb1ba622d0a0ccd2bb1ba622d0a0ccd2bb1ba622d0a0ccd2bb";
     vin := [sample_input 1];
     vout := [sample_output 20000000; sample_output 2000000] |}.

Definition tx_b : transaction :=
  {| version := 1; locktime := 834000;
     txid := lit "22222a2d0a0ccd2bb1ba622d0a0ccd2bb1ba622d0a0ccd2bb1ba622d0a0ccd2b";
     vin := [sample_input 2; sample_input 3];
     vout := [sample_output 123456; sample_output 654321] |}.

Definition sample_pool : list transaction := [tx_a; tx_over; tx_b].

Definition sample_time : Z := 0x5db8c0ff.

Definition max_target : str :=
  lit "ffffffffffffffffffffffffffffffffffffffffffffffffffffffffffffffff".

(** The files whose name ends with [.json], which are the ones read. *)
Definition json_files (files : list (str * json)) : list json :=
  map snd (filter (fun f => endswith (fst f) (lit ".json")) files).

Definition is_dict (j : json) : bool :=
  match j with JDict _ => true | _ => false end.

Definition is_nan (n : num) : bool :=
  match n with NFloat S754_nan => true | _ => false end.

Definition num_le (a b : num) : bool :=
  match num_compare a b with Some Lt | Some Eq => true | _ => false end.

(** [lo <= n <= hi], which no NaN satisfies. *)
Definition in_range (lo hi : Z) (n : num) : Prop :=
  num_le (NInt lo) n = true /\ num_le n (NInt hi) = true.

(** A value on which neither test of the loop over the outputs fires. *)
Definition passes (v : num) : Prop :=
  num_lt v (NInt MIN_OUTPUT_VALUE) = false /\
  num_gt v (NInt MAX_OUTPUT_VALUE) = false.

(** The number under the key [value] of an output, when there is one. *)
Definition output_value (output : json) : option num :=
  match getitem output (lit "value") with
  | Returns v => to_num v
  | Raises _ => None
  end.

Fixpoint output_values (outputs : list json) : option (list num) :=
  match outputs with
  | [] => Some []
  | output :: rest =>
      match output_value output, output_values rest with
      | Some v, Some vs => Some (v :: vs)
      | _, _ => None
      end
  end.

(** The total as the validator adds it up, from left to right. *)
Fixpoint py_sum (values : list num) (total : num) : outcome num :=
  match values with
  | [] => Returns total
  | v :: rest => t <- num_add total v ;; py_sum rest t
  end.

(** An input whose [txid] is the string [0] and whose [vout] equals -1. *)
Definition coinbase_reference (input : json) : Prop :=
  getitem input (lit "txid") = Returns (JStr (lit "0")) /\
  exists v, getitem input (lit "vout") = Returns v /\ json_eq_int v (-1) = true.

(** An input that the loop over the inputs can read: it has a [txid], and
    a [vout] as well when the [txid] is the string [0]. *)
Definition input_readable (input : json) : Prop :=
  exists t, getitem input (lit "txid") = Returns t /\
            (t = JStr (lit "0") -> exists v, getitem input (lit "vout") = Returns v).

(** Rules 2 to 6 on a dictionary whose outputs carry the numbers [values]
    and whose locktime is the number [lock]; a NaN passes the tests on
    numbers, which are comparisons. *)
Definition json_rules (transaction : json) (inputs : list json)
    (values : list num) (lock : num) : Prop :=
  Forall (fun v => is_nan v = true \/
                   in_range MIN_OUTPUT_VALUE MAX_OUTPUT_VALUE v) values /\
  (exists total, py_sum values (NInt 0) = Returns total /\
                 (is_nan total = true \/
                  in_range MIN_OUTPUT_VALUE MAX_OUTPUT_VALUE total)) /\
  Forall input_readable inputs /\
  ~ Exists coinbase_reference inputs /\
  (is_nan lock = true \/ in_range 0 sys_maxsize lock) /\
  100 <= Z.of_nat (length (dumps false transaction)).

(** Sample dictionaries. [small_tx] satisfies every rule but the one on the
    size: its dump has 99 characters, and 101 with the identifier [ab]. *)
Definition small_tx_with (identifier : str) : json :=
  JDict [(lit "version", JInt 1); (lit "locktime", JInt 0);
         (lit "txid", JStr identifier);
         (lit "vin", JList [JDict [(lit "txid", JStr []); (lit "vout", JInt 0)]]);
         (lit "vout", JList [JDict [(lit "value", JInt 0)]])].

Definition small_tx : json := small_tx_with [].

Definition float_21000000 : spec_float := S754_finite false 5637144576000000 (-28).
Definition float_1e_10 : spec_float := S754_finite false 7737125245533627 (-86).

(** A transaction with the outputs [values] and the locktime [lock]. *)
Definition tx_with_values (values : list json) (lock : json) : json :=
  JDict [(lit "version", JInt 2); (lit "locktime", lock);
         (lit "vin", JList [JDict [(lit "txid", JStr (lit "3b7dc918e5671037effad7848727da3d3bf302b05f5ded9bec89449460473bbb"));
                                   (lit "vout", JInt 0)]]);
         (lit "vout", JList (map (fun v => JDict [(lit "scriptpubkey", JStr (lit "0014cbc0a8a6e6e13d1e6d3a8fd5d9a3a29adf6ae1f5"));
                                                   (lit "value", v)]) values));
         (lit "txid", JStr (lit "00000a2d0a0ccd2bb1ba622d0a0ccd2bb1ba622d0a0ccd2bb1ba622d0a0ccd2b"))].

(** The items of a dictionary without the key [k]. *)
Definition dict_remove (k : str) (items : list (str * json)) : list (str * json) :=
  filter (fun kv => negb (str_eqb (fst kv) k)) items.

(** The characters that an item takes in a dump, its key, the colon and the
    blank included, and the characters of a list of items with two more for
    each: the comma and the blank in front of it, or the braces. *)
Definition item_size (kv : str * json) : nat :=
  length (json_str (fst kv)) + 2 + length (dumps false (snd kv)).

Definition weight (items : list (str * json)) : nat :=
  fold_right (fun kv n => item_size kv + 2 + n)%nat 0%nat items.

(** The characters that [json.dumps] writes as they are. *)
Definition printableb (c : ascii) : bool := (32 <=? ord c) && (ord c <=? 126).

Definition printable (s : str) : Prop := Forall (fun c => printableb c = true) s.

(** The identifier that [with_txid] computes for [data]. *)
Definition txid_of (data : json) : json :=
  JStr (sha256_hexdigest (encode (dumps false data))).

Definition get (k : str) (j : json) : option json :=
  match j with JDict items => dict_get k items | _ => None end.

(** What [with_txid] makes of a loaded value. *)
Definition identified (data d : json) : Prop :=
  is_dict d = true /\
  get (lit "txid") d = Some (txid_of data) /\
  (forall k, k <> lit "txid" -> get k d = get k data) /\
  exists digest,
    txid_of data = JStr digest /\ length digest = 64%nat /\ hex_text digest.

(* ================================================================== *)
(** * Properties *)
(* ================================================================== *)

Example field_1_4 : field 1 4 = lit "00000001".
Proof. reflexivity. Qed.

Example field_neg : field (-1) 4 = lit "-0000001".
Proof. reflexivity. Qed.

Example reversebytes_ex : reversebytes (lit "0a1b2c") = lit "2c1b0a".
Proof. reflexivity. Qed.

(** ** Lists taken two elements at a time *)

Lemma list_pair_ind (A : Type) (P : list A -> Prop) :
  P [] -> (forall a, P [a]) -> (forall a b l, P l -> P (a :: b :: l)) ->
  forall l, P l.
Proof.
  intros H0 H1 H2.
  assert (H : forall l, P l /\ forall a, P (a :: l)).
  { induction l as [|x l [IH1 IH2]]; split; auto. }
  intro l. apply H.
Qed.

Lemma chunks2_app (a b : str) :
  Nat.even (length a) = true -> chunks2 (a ++ b) = chunks2 a ++ chunks2 b.
Proof.
  induction a as [|x|x y a IH] using list_pair_ind; intro E.
  - reflexivity.
  - discriminate E.
  - cbn [app chunks2]. rewrite IH; [reflexivity | exact E].
Qed.

Lemma concat_chunks2 (s : str) : concat (chunks2 s) = s.
Proof.
  induction s as [|x|x y s IH] using list_pair_ind; cbn; [reflexivity..|].
  now rewrite IH.
Qed.

Lemma length_concat_rev (A : Type) (l : list (list A)) :
  length (concat (rev l)) = length (concat l).
Proof.
  induction l as [|x l IH]; [reflexivity|].
  cbn [rev concat]. rewrite concat_app. cbn [concat].
  rewrite app_nil_r, !length_app, IH. lia.
Qed.

Lemma reversebytes_length (s : str) : length (reversebytes s) = length s.
Proof.
  unfold reversebytes. now rewrite length_concat_rev, concat_chunks2.
Qed.

Lemma reversebytes_app (a b : str) :
  Nat.even (length a) = true ->
  reversebytes (a ++ b) = reversebytes b ++ reversebytes a.
Proof.
  intro E. unfold reversebytes.
  now rewrite chunks2_app, rev_app_distr, concat_app.
Qed.

Lemma reversebytes_involutive (s : str) :
  Nat.even (length s) = true -> reversebytes (reversebytes s) = s.
Proof.
  induction s as [|x|x y s IH] using list_pair_ind; intro E.
  - reflexivity.
  - discriminate E.
  - change (x :: y :: s) with ([x; y] ++ s) at 1.
    rewrite reversebytes_app by reflexivity.
    rewrite reversebytes_app by (rewrite reversebytes_length; exact E).
    rewrite IH by exact E. reflexivity.
Qed.

(** ** Hexadecimal digits *)

Lemma hexval_hexchar (d : Z) : 0 <= d < 16 -> hexval (hexchar d) = Some d.
Proof.
  intro H. replace d with (Z.of_nat (Z.to_nat d)) by lia.
  assert (Hn : (Z.to_nat d < 16)%nat) by lia.
  clear H. revert Hn. generalize (Z.to_nat d). intros n Hn.
  do 16 (destruct n as [|n]; [reflexivity|]). lia.
Qed.

Lemma pow16_succ (k : nat) : 16 ^ Z.of_nat (S k) = 16 * 16 ^ Z.of_nat k.
Proof. rewrite Nat2Z.inj_succ. apply Z.pow_succ_r. lia. Qed.

Lemma pow16_pos (k : nat) : 0 < 16 ^ Z.of_nat k.
Proof. apply Z.pow_pos_nonneg; lia. Qed.

(** What [hex_acc] produces when the fuel covers the number: [k] digits,
    [k] the number of base-16 digits of [n], whose positional value is [n]. *)
Lemma hex_acc_spec (fuel : nat) :
  forall n acc, 0 <= n < 16 ^ Z.of_nat fuel -> (1 <= fuel)%nat ->
  exists k : nat,
    (1 <= k)%nat /\
    length (hex_acc fuel n acc) = (k + length acc)%nat /\
    n < 16 ^ Z.of_nat k /\
    (k = 1%nat \/ 16 ^ (Z.of_nat k - 1) <= n) /\
    forall a, int16_acc (hex_acc fuel n acc) a
              = int16_acc acc (a * 16 ^ Z.of_nat k + n).
Proof.
  induction fuel as [|f IH]; intros n acc Hn Hf; [lia|].
  cbn [hex_acc].
  pose proof (Z.div_mod n 16 ltac:(lia)) as Hdm.
  pose proof (Z.mod_pos_bound n 16 ltac:(lia)) as Hr.
  destruct (Z.eqb_spec (n / 16) 0) as [Hq|Hq].
  - exists 1%nat. rewrite Hq in Hdm.
    split; [lia|]. split; [reflexivity|]. split; [cbn; lia|].
    split; [now left|].
    intro a. cbn [int16_acc]. rewrite hexval_hexchar by exact Hr.
    f_equal. change (16 ^ Z.of_nat 1) with 16. lia.
  - assert (Hq0 : 0 < n / 16) by (pose proof (Z.div_pos n 16); lia).
    rewrite pow16_succ in Hn.
    assert (Hqf : n / 16 < 16 ^ Z.of_nat f)
      by (apply Z.div_lt_upper_bound; lia).
    assert (Hf1 : (1 <= f)%nat).
    { destruct f; [cbn in Hqf; lia | lia]. }
    destruct (IH (n / 16) (hexchar (n mod 16) :: acc) ltac:(lia) Hf1)
      as (k & Hk & Hlen & Hub & Hlb & Hval).
    exists (S k). rewrite pow16_succ.
    replace (Z.of_nat (S k) - 1) with (Z.of_nat k) by lia.
    split; [|split; [|split; [|split]]].
    + lia.
    + rewrite Hlen. cbn [length]. lia.
    + lia.
    + right. replace (Z.of_nat k) with (Z.succ (Z.of_nat k - 1)) by lia.
      rewrite Z.pow_succ_r by lia.
      destruct Hlb as [->|Hlb]; [cbn; lia | lia].
    + intro a. rewrite Hval. cbn [int16_acc].
      rewrite hexval_hexchar by exact Hr. f_equal. lia.
Qed.

Lemma hex_spec (n : Z) :
  0 <= n ->
  exists k : nat,
    (1 <= k)%nat /\ length (hex n) = k /\ n < 16 ^ Z.of_nat k /\
    (k = 1%nat \/ 16 ^ (Z.of_nat k - 1) <= n) /\
    int16_acc (hex n) 0 = Some n.
Proof.
  intro Hn. unfold hex.
  assert (Hb : n < 16 ^ Z.of_nat (S (Z.to_nat (Z.log2 n)))).
  { pose proof (Z.log2_nonneg n).
    destruct (Z.eq_dec n 0) as [->|Hz]; [reflexivity|].
    destruct (Z.log2_spec n ltac:(lia)) as [_ Hu].
    eapply Z.lt_le_trans; [exact Hu|].
    rewrite Nat2Z.inj_succ, Z2Nat.id by lia.
    apply Z.pow_le_mono_l. lia. }
  destruct (hex_acc_spec _ n [] (conj Hn Hb) ltac:(lia))
    as (k & Hk & Hlen & Hub & Hlb & Hval).
  exists k. rewrite Hlen, Hval. cbn [length int16_acc].
  repeat split; try lia; auto.
Qed.

Lemma int16_acc_zeros (k : nat) (s : str) :
  int16_acc (repeat "0"%char k ++ s) 0 = int16_acc s 0.
Proof. induction k as [|k IH]; [reflexivity | exact IH]. Qed.

Lemma zfill_length (w : nat) (s : str) :
  length (zfill w s) = Nat.max w (length s).
Proof. unfold zfill. rewrite length_app, repeat_length. lia. Qed.

Lemma int16_nonempty (s : str) :
  (1 <= length s)%nat -> int16 s = int16_acc s 0.
Proof. destruct s; [cbn; lia | reflexivity]. Qed.

Lemma pow2_8w (w : nat) : 2 ^ (8 * Z.of_nat w) = 16 ^ Z.of_nat (w * 2).
Proof.
  replace (8 * Z.of_nat w) with (4 * Z.of_nat (w * 2)) by lia.
  rewrite Z.pow_mul_r by lia. reflexivity.
Qed.

(** [field] on a non-negative number: the digits are those of the number,
    and the width is the larger of [2 * size] and the number of digits. *)
Lemma field_nonneg (v : Z) (w : nat) :
  0 <= v ->
  int16 (field v w) = Some v /\
  (v < 2 ^ (8 * Z.of_nat w) -> (1 <= w)%nat ->
   length (field v w) = (2 * w)%nat) /\
  (2 ^ (8 * Z.of_nat w) <= v -> (2 * w < length (field v w))%nat).
Proof.
  intro Hv. unfold field, format_0x.
  destruct (Z.ltb_spec v 0) as [?|_]; [lia|].
  destruct (hex_spec v Hv) as (k & Hk & Hlen & Hub & Hlb & Hval).
  rewrite pow2_8w, zfill_length, Hlen. split; [|split].
  - rewrite int16_nonempty by (rewrite zfill_length; lia).
    unfold zfill. now rewrite int16_acc_zeros.
  - intros Hlt Hw.
    assert (k <= w * 2)%nat; [|lia].
    destruct Hlb as [->|Hlb]; [lia|].
    assert (Z.of_nat k - 1 < Z.of_nat (w * 2)); [|lia].
    apply (Z.pow_lt_mono_r_iff 16); lia.
  - intro Hge.
    assert (Z.of_nat (w * 2) < Z.of_nat k); [|lia].
    apply (Z.pow_lt_mono_r_iff 16); lia.
Qed.

(** ** Test vectors of the hash *)

Example sha256_constants :
  length SHA256.primes = 64%nat /\ last SHA256.primes 0 = 311 /\
  hd 0 SHA256.K = 0x428a2f98 /\ last SHA256.K 0 = 0xc67178f2 /\
  SHA256.ra SHA256.H0 = 0x6a09e667 /\ SHA256.rh SHA256.H0 = 0x5be0cd19.
Proof. repeat split. Qed.

Example sha256_abc :
  sha256_hexdigest (encode (lit "abc"))
  = lit "ba7816bf8f01cfea414140de5dae2223b00361a396177a9cb410ff61f20015ad".
Proof. vm_compute. reflexivity. Qed.

Example sha256_empty :
  sha256_hexdigest []
  = lit "e3b0c44298fc1c149afbf4c8996fb92427ae41e4649b934ca495991b7852b855".
Proof. vm_compute. reflexivity. Qed.

(** Messages of 55, 56 and 100 bytes: one block, and two blocks with and
    without the length in the second one. *)
Example sha256_55_bytes :
  sha256_hexdigest (repeat 97 55)
  = lit "9f4390f8d30c2dd92ec9f095b65e2b9ae9b0a925a5258e241c9f1e910f734318".
Proof. vm_compute. reflexivity. Qed.

Example sha256_56_bytes :
  sha256_hexdigest (repeat 97 56)
  = lit "b35439a4ac6f0948b6d6f9e3c6af0f5f590ce20f1bde7090ef7970686ec6738a".
Proof. vm_compute. reflexivity. Qed.

Example sha256_100_bytes :
  sha256_hexdigest (repeat 97 100)
  = lit "2816597888e4a0d3a36b82b83316ab32680eb8f00f8cd3b904d681246d285a0e".
Proof. vm_compute. reflexivity. Qed.

Example hash256_00ff :
  hash256 (lit "00ff")
  = Some (lit "63e16be7c46701e1275e7e5c79732685b824520343c51a86a7bb48a044878823").
Proof. vm_compute. reflexivity. Qed.

Example hash256_odd_length : hash256 (lit "000000010") = None.
Proof. reflexivity. Qed.

Example validate_coinbase : validate_transaction create_coinbase_transaction = PyNone.
Proof. vm_compute. reflexivity. Qed.

Example coinbase_serialized_size :
  length (dumps false (dict_of_transaction create_coinbase_transaction)) = 241%nat.
Proof. vm_compute. reflexivity. Qed.


(* ------------------------------------------------------------------ *)
(** ** The field codec *)
(* ------------------------------------------------------------------ *)

(** C7. For every string [x] of even length (hexadecimal or not),
    reversing the byte order twice gives [x] back:
    [reversebytes (reversebytes x) = x]. *)
Theorem reversebytes_round_trip (x : str) :
  Nat.even (length x) = true -> reversebytes (reversebytes x) = x.
Proof. exact (reversebytes_involutive x). Qed.

Lemma reversebytes_round_trip_witness :
  reversebytes (reversebytes (lit "0a1b2c")) = lit "0a1b2c".
Proof. apply (reversebytes_round_trip (lit "0a1b2c")). reflexivity. Defined.

Lemma odd_length_split (data : str) :
  Nat.odd (length data) = true ->
  exists body c, data = body ++ [c] /\ Nat.even (length body) = true.
Proof.
  intro Hodd.
  destruct data as [|x data] using rev_ind; [discriminate Hodd|].
  exists data, x. split; [reflexivity|].
  rewrite length_app, Nat.add_1_r, Nat.odd_succ in Hodd. exact Hodd.
Qed.

(** C9 (as the code has it). [reversebytes] has no failure: on a string of
    odd length it returns a string of the same length, made of the last
    character, which forms a chunk of its own, followed by the byte-order
    reversal of the characters before it. *)
Theorem reversebytes_odd_length (data : str) :
  Nat.odd (length data) = true ->
  exists body c,
    data = body ++ [c] /\
    reversebytes data = c :: reversebytes body /\
    length (reversebytes data) = length data.
Proof.
  intro Hodd. destruct (odd_length_split data Hodd) as (body & c & -> & Hev).
  exists body, c. split; [reflexivity|]. split.
  - now rewrite reversebytes_app.
  - apply reversebytes_length.
Qed.

Lemma reversebytes_odd_length_witness :
  exists body c,
    lit "abc" = body ++ [c] /\
    reversebytes (lit "abc") = c :: reversebytes body /\
    length (reversebytes (lit "abc")) = length (lit "abc").
Proof. apply (reversebytes_odd_length (lit "abc")). reflexivity. Defined.

(** C9 as stated fails: the three-character string [abc] has odd length and
    [reversebytes] returns [cab] for it. *)
Lemma reversebytes_odd_length_returns :
  Nat.odd (length (lit "abc")) = true /\ reversebytes (lit "abc") = lit "cab".
Proof. split; reflexivity. Qed.

(** C6 (as the code has it). For a byte width [w >= 1] and a value in
    [[0, 2^(8w) - 1]], [field] gives exactly [2w] hexadecimal digits, most
    significant first (read back in base 16 they give the value). For a
    value of [2^(8w)] or more [field] does not fail: it returns all the
    digits of the value, more than [2w] of them; for a negative value it
    returns a text that starts with a minus sign. *)
Theorem field_width (value : Z) (w : nat) :
  (1 <= w)%nat ->
  (0 <= value < 2 ^ (8 * Z.of_nat w) ->
   length (field value w) = (2 * w)%nat /\ int16 (field value w) = Some value) /\
  (2 ^ (8 * Z.of_nat w) <= value ->
   (2 * w < length (field value w))%nat /\ int16 (field value w) = Some value) /\
  (value < 0 -> exists digits, field value w = "-"%char :: digits).
Proof.
  intro Hw. split; [|split].
  - intros [H0 Hlt]. destruct (field_nonneg value w H0) as (Hv & Hin & _).
    split; [apply Hin; assumption | exact Hv].
  - intro Hge.
    assert (H0 : 0 <= value).
    { pose proof (Z.pow_nonneg 2 (8 * Z.of_nat w)). lia. }
    destruct (field_nonneg value w H0) as (Hv & _ & Hout).
    split; [apply Hout; assumption | exact Hv].
  - intro Hneg. unfold field, format_0x.
    destruct (Z.ltb_spec value 0) as [_|?]; [|lia].
    eexists. reflexivity.
Qed.

Lemma field_width_witness :
  length (field 1 4) = 8%nat /\ int16 (field 1 4) = Some 1.
Proof.
  destruct (field_width 1 4 ltac:(lia)) as (Hin & _ & _).
  apply Hin. split; [lia | reflexivity].
Defined.

(** C6 as stated fails in two places: the value [2^32] does not fit 4 bytes
    and [field] returns nine digits for it, and for the width 0 the only
    value in range, 0, is printed on one digit. *)
Lemma field_out_of_range_returns :
  field (2 ^ 32) 4 = lit "100000000" /\ field 0 0 = lit "0".
Proof. split; reflexivity. Qed.

(* ------------------------------------------------------------------ *)
(** ** The validator *)
(* ------------------------------------------------------------------ *)

Lemma sum_outputs_Some (outputs : list tx_output) :
  forall total t, sum_outputs outputs total = Some t ->
  Forall value_in_range outputs /\ t = total + sum_values outputs.
Proof.
  induction outputs as [|o outputs IH]; intros total t H; cbn in H.
  - injection H as <-. split; [constructor | unfold sum_values; cbn [fold_right]; lia].
  - unfold MIN_OUTPUT_VALUE, MAX_OUTPUT_VALUE in H.
    destruct (Z.ltb_spec (out_value o) 0); [discriminate H|].
    destruct (Z.gtb_spec (out_value o) 21000000); [discriminate H|].
    cbn [orb] in H. destruct (IH _ _ H) as [HF ->].
    split; [constructor; [unfold value_in_range; lia | exact HF]|].
    unfold sum_values; cbn [fold_right]; lia.
Qed.

Lemma sum_outputs_None (outputs : list tx_output) :
  forall total, sum_outputs outputs total = None ->
  ~ Forall value_in_range outputs.
Proof.
  induction outputs as [|o outputs IH]; intros total H HF; cbn in H.
  - discriminate H.
  - inversion HF as [|? ? Ho HF']; subst. unfold value_in_range in Ho.
    unfold MIN_OUTPUT_VALUE, MAX_OUTPUT_VALUE in H.
    destruct (Z.ltb_spec (out_value o) 0); [lia|].
    destruct (Z.gtb_spec (out_value o) 21000000); [lia|].
    cbn [orb] in H. exact (IH _ H HF').
Qed.

Lemma str_eqb_eq (a b : str) : str_eqb a b = true <-> a = b.
Proof.
  unfold str_eqb. destruct (list_eq_dec ascii_dec a b); split; congruence.
Qed.

Lemma py_eq_str (v : pyval) (s : str) : py_eq v (PyStr s) = true <-> v = PyStr s.
Proof.
  destruct v; cbn; try (split; [discriminate | discriminate]).
  rewrite str_eqb_eq. split; congruence.
Qed.

Lemma is_coinbase_reference_spec (i : tx_input) :
  is_coinbase_reference i = true <->
  in_txid i = PyStr (lit "0") /\ in_vout i = -1.
Proof.
  unfold is_coinbase_reference.
  rewrite andb_true_iff, py_eq_str, Z.eqb_eq. reflexivity.
Qed.

Lemma no_coinbase_reference (inputs : list tx_input) :
  existsb is_coinbase_reference inputs = false <->
  Forall (fun i => ~ (in_txid i = PyStr (lit "0") /\ in_vout i = -1)) inputs.
Proof.
  induction inputs as [|i inputs IH]; cbn.
  - split; [constructor | reflexivity].
  - rewrite orb_false_iff, IH. split.
    + intros [Hi HF]. constructor; [|exact HF].
      rewrite <- is_coinbase_reference_spec. congruence.
    + intro HF. inversion HF as [|? ? Hi HF']; subst. split; [|exact HF'].
      rewrite <- is_coinbase_reference_spec in Hi.
      destruct (is_coinbase_reference i); [now elim Hi | reflexivity].
Qed.

(** The validator returns [False] or falls off its end; it never returns
    [True]. *)
Lemma validate_transaction_result (t : transaction) :
  validate_transaction t = PyNone \/ validate_transaction t = PyBool false.
Proof.
  unfold validate_transaction.
  repeat match goal with
         | |- context [if ?c then _ else _] => destruct c
         | |- context [match ?c with Some _ => _ | None => _ end] => destruct c
         end; auto.
Qed.

Lemma validate_transaction_iff (t : transaction) :
  vin t <> [] -> vout t <> [] ->
  (validate_transaction t = PyNone <-> admission_rules t).
Proof.
  intros Hin Hout. unfold validate_transaction, admission_rules.
  unfold output_total, serialized_size.
  destruct (vin t) as [|i ins] eqn:Evin; [contradiction|].
  destruct (vout t) as [|o outs] eqn:Evout; [contradiction|].
  cbn [is_empty orb].
  destruct (sum_outputs (o :: outs) 0) as [total|] eqn:Esum.
  2:{ apply sum_outputs_None in Esum. split; [discriminate | tauto]. }
  apply sum_outputs_Some in Esum. destruct Esum as [HF ->].
  rewrite Z.add_0_l. unfold MAX_OUTPUT_VALUE, MIN_OUTPUT_VALUE.
  destruct (Z.gtb_spec (sum_values (o :: outs)) 21000000); cbn [orb].
  { split; [discriminate | lia]. }
  destruct (Z.ltb_spec (sum_values (o :: outs)) 0); cbn [orb].
  { split; [discriminate | lia]. }
  destruct (existsb is_coinbase_reference (i :: ins)) eqn:Ecb.
  { split; [discriminate|]. intros (_ & _ & Hcb & _).
    apply no_coinbase_reference in Hcb. congruence. }
  apply no_coinbase_reference in Ecb.
  destruct (Z.gtb_spec (locktime t) sys_maxsize); cbn [orb].
  { split; [discriminate | lia]. }
  destruct (Z.ltb_spec (locktime t) 0); cbn [orb].
  { split; [discriminate | lia]. }
  match goal with |- context [?n <? 100] => destruct (Z.ltb_spec n 100) end.
  { split; [discriminate | lia]. }
  split; [intros _ | reflexivity].
  repeat split; try assumption; lia.
Qed.

Lemma sample_rules_a : admission_rules tx_a.
Proof.
  unfold admission_rules. split; [|split; [|split; [|split]]].
  - repeat constructor; cbn; lia.
  - vm_compute. split; discriminate.
  - repeat constructor. intros [_ H]. discriminate H.
  - vm_compute. split; discriminate.
  - apply Z.leb_le. vm_compute. reflexivity.
Qed.

Lemma sample_rules_b : admission_rules tx_b.
Proof.
  unfold admission_rules. split; [|split; [|split; [|split]]].
  - repeat constructor; cbn; lia.
  - vm_compute. split; discriminate.
  - repeat constructor; intros [_ H]; discriminate H.
  - vm_compute. split; discriminate.
  - apply Z.leb_le. vm_compute. reflexivity.
Qed.

(* ------------------------------------------------------------------ *)
(** ** Block assembly *)
(* ------------------------------------------------------------------ *)

Lemma validate_transaction_falsy (t : transaction) :
  truthy (validate_transaction t) = false.
Proof. destruct (validate_transaction_result t) as [-> | ->]; reflexivity. Qed.

(** The filter of [main] keeps the transactions on which the validator
    returns a true value, and it returns none: no transaction is kept. *)
Lemma valid_transactions_nil (pool : list transaction) :
  valid_transactions pool = [].
Proof.
  unfold valid_transactions. induction pool as [|t pool IH]; [reflexivity|].
  cbn [filter]. now rewrite validate_transaction_falsy.
Qed.

(** C2 (what the code does on such a pool). [sample_pool] holds three
    transactions: [tx_a] and [tx_b] satisfy every rule and the validator
    does not reject them, [tx_over] has outputs in range whose sum,
    22,000,000, is out of range and is rejected. The list passed to [mining]
    holds the coinbase transaction alone, and the lines written after the
    header are the coinbase serialization and nothing else. *)
Theorem sample_pool_block :
  admission_rules tx_a /\ admission_rules tx_b /\
  (Forall value_in_range (vout tx_over) /\ output_total tx_over = 22000000) /\
  validate_transaction tx_a = PyNone /\
  validate_transaction tx_b = PyNone /\
  validate_transaction tx_over = PyBool false /\
  transactions_for_block sample_pool = [create_coinbase_transaction] /\
  length (transactions_for_block sample_pool) = 1%nat /\
  forall block_header,
    output_lines block_header sample_pool
    = [dumps true (JStr block_header);
       serialize_transaction create_coinbase_transaction].
Proof.
  split; [exact sample_rules_a|]. split; [exact sample_rules_b|].
  split; [split; [repeat constructor; cbn; lia | reflexivity]|].
  split; [vm_compute; reflexivity|]. split; [vm_compute; reflexivity|].
  split; [vm_compute; reflexivity|].
  unfold transactions_for_block, output_lines.
  rewrite valid_transactions_nil. repeat split.
Qed.

(** C5. The coinbase transaction has exactly one input, whose [txid] is the
    integer 0 and whose [vout] is [MAX_VOUT = 2^32 - 1], and exactly one
    output, of value 50; and whatever the pool, the empty pool included, it
    is the element 0 of the list passed to [mining]. *)
Theorem coinbase_first :
  (exists input output,
     vin create_coinbase_transaction = [input] /\
     in_txid input = PyInt 0 /\
     in_vout input = MAX_VOUT /\ MAX_VOUT = 4294967295 /\
     vout create_coinbase_transaction = [output] /\
     out_value output = 50) /\
  (forall pool,
     nth_error (transactions_for_block pool) 0 = Some create_coinbase_transaction) /\
  transactions_for_block [] = [create_coinbase_transaction].
Proof.
  split; [|split].
  - do 2 eexists. repeat split.
  - intro pool. reflexivity.
  - reflexivity.
Qed.

(* ------------------------------------------------------------------ *)
(** ** Hexadecimal texts through the codec and the hash *)
(* ------------------------------------------------------------------ *)

Lemma hex_text_iff (s : str) : is_hexstr s = true <-> hex_text s.
Proof.
  unfold is_hexstr, hex_text. induction s as [|c s IH]; cbn.
  - split; [constructor | reflexivity].
  - rewrite andb_true_iff, IH. split.
    + intros [Hc Hs]. now constructor.
    + intro H. inversion H; subst. now split.
Qed.

Lemma hex_text_app (a b : str) : hex_text (a ++ b) <-> hex_text a /\ hex_text b.
Proof. apply Forall_app. Qed.

Lemma hexdigit_not_space (c : ascii) : is_hexdigit c = true -> isspace c = false.
Proof.
  unfold is_hexdigit, hexval, isspace. generalize (ord c). intro n.
  destruct (Z.leb_spec 48 n), (Z.leb_spec n 57), (Z.leb_spec 97 n),
    (Z.leb_spec n 102), (Z.leb_spec 65 n), (Z.leb_spec n 70);
    cbn; try discriminate; intros _;
    destruct (Z.leb_spec 9 n), (Z.leb_spec n 13), (Z.eqb_spec n 32);
    cbn; try reflexivity; lia.
Qed.

Lemma hexchar_hexdigit (d : Z) : 0 <= d < 16 -> is_hexdigit (hexchar d) = true.
Proof. intro H. unfold is_hexdigit. now rewrite hexval_hexchar. Qed.

Lemma fromhex_hex_text (s : str) :
  hex_text s ->
  (Nat.even (length s) = true -> exists bs, fromhex s = Some bs) /\
  (Nat.odd (length s) = true -> fromhex s = None).
Proof.
  induction s as [|a|a b s IH] using list_pair_ind; intro H.
  - split; [intros _; now exists [] | discriminate].
  - inversion H as [|? ? Ha _]; subst. split; [discriminate|]. intros _.
    cbn. now rewrite (hexdigit_not_space a Ha).
  - inversion H as [|? ? Ha H']; subst. inversion H' as [|? ? Hb Hs]; subst.
    destruct (IH Hs) as [IHe IHo].
    cbn [fromhex]. rewrite (hexdigit_not_space a Ha).
    unfold is_hexdigit in Ha, Hb.
    destruct (hexval a); [|discriminate]. destruct (hexval b); [|discriminate].
    split; intro Hl.
    + destruct (IHe Hl) as [bs ->]. eauto.
    + rewrite (IHo Hl). reflexivity.
Qed.

Lemma hexlify_hex_text (bs : list Z) : Forall is_byte bs -> hex_text (hexlify bs).
Proof.
  intro H. unfold hexlify, hex_text. apply Forall_flat_map.
  eapply Forall_impl; [|exact H]. intros b Hb. unfold is_byte in Hb.
  repeat constructor; apply hexchar_hexdigit.
  - split; [apply Z.div_pos; lia | apply Z.div_lt_upper_bound; lia].
  - apply Z.mod_pos_bound. lia.
Qed.

Lemma hexlify_length (bs : list Z) : length (hexlify bs) = (2 * length bs)%nat.
Proof.
  unfold hexlify. rewrite (flat_map_constant_length (c := 2)); [lia|].
  reflexivity.
Qed.

Lemma sha256_bytes (msg : list Z) :
  Forall is_byte (SHA256.sha256 msg) /\ length (SHA256.sha256 msg) = 32%nat.
Proof.
  unfold SHA256.sha256. generalize (fold_left SHA256.compress
    (SHA256.blocks (length (SHA256.pad msg)) (SHA256.pad msg)) SHA256.H0).
  intro h. unfold SHA256.digest_bytes.
  cbv [flat_map SHA256.be_bytes map rev seq app length].
  split; [|reflexivity].
  repeat constructor; apply Z.mod_pos_bound; lia.
Qed.

Lemma sha256_hexdigest_hex_text (msg : list Z) :
  hex_text (sha256_hexdigest msg) /\ length (sha256_hexdigest msg) = 64%nat.
Proof.
  unfold sha256_hexdigest. destruct (sha256_bytes msg) as [HB HL].
  split; [now apply hexlify_hex_text | now rewrite hexlify_length, HL].
Qed.

Lemma chunks2_Forall (P : ascii -> Prop) (s : str) :
  Forall P s -> Forall (Forall P) (chunks2 s).
Proof.
  induction s as [|a|a b s IH] using list_pair_ind; intro H; cbn.
  - constructor.
  - repeat constructor. now inversion H.
  - inversion H as [|? ? Ha H']; subst. inversion H' as [|? ? Hb Hs]; subst.
    constructor; [repeat constructor; assumption | now apply IH].
Qed.

Lemma reversebytes_hex_text (s : str) : hex_text s -> hex_text (reversebytes s).
Proof.
  intro H. unfold reversebytes, hex_text.
  apply Forall_concat, Forall_rev, chunks2_Forall. exact H.
Qed.

Lemma int16_acc_hex_text (s : str) :
  hex_text s -> forall acc, 0 <= acc -> exists v, int16_acc s acc = Some v /\ 0 <= v.
Proof.
  induction 1 as [|c s Hc Hs IH]; intros acc Hacc; cbn.
  - eauto.
  - unfold is_hexdigit in Hc. destruct (hexval c) as [d|] eqn:Hd; [|discriminate].
    apply IH. assert (0 <= d); [|lia].
    revert Hd. unfold hexval. generalize (ord c). intros n Hd.
    destruct (Z.leb_spec 48 n), (Z.leb_spec n 57), (Z.leb_spec 97 n),
      (Z.leb_spec n 102), (Z.leb_spec 65 n), (Z.leb_spec n 70);
      cbn in Hd; try discriminate; injection Hd as <-; lia.
Qed.

Lemma int16_hex_text (s : str) :
  hex_text s -> (1 <= length s)%nat -> exists v, int16 s = Some v /\ 0 <= v.
Proof.
  intros H Hl. rewrite int16_nonempty by exact Hl.
  apply int16_acc_hex_text; [exact H | lia].
Qed.

Lemma hex_acc_hex_text (fuel : nat) :
  forall n acc, hex_text acc -> hex_text (hex_acc fuel n acc).
Proof.
  induction fuel as [|f IH]; intros n acc H; cbn [hex_acc]; [exact H|].
  assert (H' : hex_text (hexchar (n mod 16) :: acc)).
  { constructor; [|exact H]. apply hexchar_hexdigit, Z.mod_pos_bound. lia. }
  destruct (n / 16 =? 0); [exact H' | now apply IH].
Qed.

Lemma field_hex_text (v : Z) (w : nat) : 0 <= v -> hex_text (field v w).
Proof.
  intro Hv. unfold field, format_0x.
  destruct (Z.ltb_spec v 0); [lia|]. unfold zfill.
  apply hex_text_app. split.
  - apply Forall_forall. intros c Hc. apply repeat_spec in Hc. now subst.
  - apply hex_acc_hex_text. constructor.
Qed.

(** The nonce field as it is appended to the header: eight hexadecimal
    digits while the nonce fits four bytes. *)
Lemma nonce_field (nonce : Z) :
  0 <= nonce < nonce_limit ->
  hex_text (reversebytes (field nonce 4)) /\
  length (reversebytes (field nonce 4)) = 8%nat.
Proof.
  intros [H0 Hlt]. split.
  - apply reversebytes_hex_text, field_hex_text, H0.
  - rewrite reversebytes_length.
    destruct (field_nonneg nonce 4 H0) as (_ & Hlen & _).
    apply Hlen; [exact Hlt | lia].
Qed.

Lemma header_hex_text (time_stamp : Z) (transactions : list transaction) :
  0 <= time_stamp < 2 ^ 32 ->
  hex_text (header time_stamp transactions) /\
  length (header time_stamp transactions) = 144%nat.
Proof.
  intros Hts. unfold header, merkle_root.
  destruct (sha256_hexdigest_hex_text
              (encode (merkle_text (map txid transactions)))) as [Hm Hml].
  destruct (nonce_field time_stamp Hts) as [Ht Htl].
  split.
  - apply hex_text_app; split;
      [|apply hex_text_app; split; [|apply hex_text_app; split]].
    + apply hex_text_iff. reflexivity.
    + apply hex_text_iff. reflexivity.
    + now apply reversebytes_hex_text.
    + exact Ht.
  - rewrite !length_app, !reversebytes_length, Hml.
    rewrite reversebytes_length in Htl. rewrite Htl. reflexivity.
Qed.

(** A text that [bytes.fromhex] reads when it ends with some hexadecimal
    digits is not read any more when it ends with one digit more. *)
Lemma fromhex_one_more_digit (n : nat) :
  forall s, (length s <= n)%nat ->
  forall d1 d2, hex_text d1 -> hex_text d2 -> length d2 = S (length d1) ->
  (exists bs, fromhex (s ++ d1) = Some bs) -> fromhex (s ++ d2) = None.
Proof.
  assert (Hbase : forall d1 d2, hex_text d1 -> hex_text d2 ->
            length d2 = S (length d1) ->
            (exists bs, fromhex d1 = Some bs) -> fromhex d2 = None).
  { intros d1 d2 H1 H2 Hl [bs Hbs].
    destruct (fromhex_hex_text d1 H1) as [_ Hodd1].
    destruct (fromhex_hex_text d2 H2) as [_ Hodd2].
    apply Hodd2. rewrite Hl, Nat.odd_succ.
    destruct (Nat.even (length d1)) eqn:E; [reflexivity|].
    rewrite Hodd1 in Hbs; [discriminate|].
    unfold Nat.odd. now rewrite E. }
  induction n as [|n IH]; intros s Hlen d1 d2 H1 H2 Hl Hsome.
  - destruct s; [|cbn in Hlen; lia]. now apply (Hbase d1 d2).
  - destruct s as [|a rest]; [now apply (Hbase d1 d2)|].
    cbn [length] in Hlen. destruct Hsome as [bs Hbs].
    cbn [app fromhex] in Hbs |- *.
    destruct (isspace a).
    { apply (IH rest ltac:(lia) d1 d2); eauto. }
    destruct rest as [|b rest'].
    + cbn [app] in Hbs |- *.
      destruct d1 as [|b1 d1']; [discriminate Hbs|].
      destruct d2 as [|b2 d2']; [discriminate Hl|].
      cbn [length] in Hl. injection Hl as Hl.
      inversion H1; subst. inversion H2; subst.
      assert (Hd : fromhex d2' = None).
      { apply (Hbase d1' d2'); try assumption.
        destruct (hexval a); [|discriminate Hbs].
        destruct (hexval b1); [|discriminate Hbs].
        destruct (fromhex d1'); [eauto | discriminate Hbs]. }
      rewrite Hd. destruct (hexval a); [|reflexivity].
      destruct (hexval b2); reflexivity.
    + cbn [app length] in Hbs, Hlen |- *.
      assert (Hd : fromhex (rest' ++ d2) = None).
      { apply (IH rest' ltac:(lia) d1 d2); try assumption.
        destruct (hexval a); [|discriminate Hbs].
        destruct (hexval b); [|discriminate Hbs].
        destruct (fromhex (rest' ++ d1)); [eauto | discriminate Hbs]. }
      rewrite Hd. destruct (hexval a); [|reflexivity].
      destruct (hexval b); reflexivity.
Qed.

(* ------------------------------------------------------------------ *)
(** ** The nonce search *)
(* ------------------------------------------------------------------ *)

Lemma iteration_Failed (header target : str) (nonce : Z) (e : String.string) :
  iteration header target nonce = Failed e -> e = ValueError.
Proof.
  unfold iteration. destruct (hash256 _); [|congruence].
  destruct (int16 _); [|congruence]. destruct (int16 target); [|congruence].
  destruct (_ <? _); congruence.
Qed.

(** A pass that returns: the pair is made of the header without nonce and
    of the reversed double hash of the attempt, which is below the target. *)
Lemma iteration_Solved (header target : str) (nonce : Z) (bh r : str) :
  iteration header target nonce = Solved bh r ->
  bh = header /\
  exists binary v t,
    fromhex (header ++ reversebytes (field nonce 4)) = Some binary /\
    r = reversebytes (hexlify (SHA256.sha256 (SHA256.sha256 binary))) /\
    int16 r = Some v /\ int16 target = Some t /\ v < t.
Proof.
  unfold iteration, hash256, attempt_of, sha256_hexdigest.
  destruct (fromhex _) as [binary|]; [|discriminate].
  remember (reversebytes (hexlify (SHA256.sha256 (SHA256.sha256 binary))))
    as res eqn:Hres.
  destruct (int16 res) as [v|] eqn:Ev; [|discriminate].
  destruct (int16 target) as [t|]; [|discriminate].
  destruct (Z.ltb_spec v t) as [Hlt|_]; [|discriminate].
  intro Heq. injection Heq as <- <-. split; [reflexivity|].
  exists binary, v, t. subst res. repeat split; assumption.
Qed.

(** A pass that goes on to the next nonce: the attempt was hashed and its
    reversed double hash is not below the target. *)
Lemma iteration_Retry (header target : str) (nonce : Z) :
  iteration header target nonce = Retry ->
  exists binary v t,
    fromhex (header ++ reversebytes (field nonce 4)) = Some binary /\
    int16 (reversebytes (hexlify (SHA256.sha256 (SHA256.sha256 binary)))) = Some v /\
    int16 target = Some t /\ t <= v.
Proof.
  unfold iteration, hash256, attempt_of, sha256_hexdigest.
  destruct (fromhex _) as [binary|]; [|discriminate].
  remember (reversebytes (hexlify (SHA256.sha256 (SHA256.sha256 binary))))
    as res eqn:Hres.
  destruct (int16 res) as [v|] eqn:Ev; [|discriminate].
  destruct (int16 target) as [t|]; [|discriminate].
  destruct (Z.ltb_spec v t); [discriminate|].
  intros _. subst res. exists binary, v, t. repeat split; assumption.
Qed.

(** With a header of hexadecimal digits and a nonce that fits its field, a
    pass does not raise on its attempt, and the number it compares with the
    target is not negative. *)
Lemma iteration_in_range (header target : str) (nonce t : Z) :
  hex_text header -> Nat.even (length header) = true ->
  0 <= nonce < nonce_limit -> int16 target = Some t ->
  exists result v,
    int16 result = Some v /\ 0 <= v /\
    iteration header target nonce
    = if v <? t then Solved header result else Retry.
Proof.
  intros Hh He Hn Ht. unfold iteration, hash256, attempt_of.
  destruct (nonce_field nonce Hn) as [Hf Hfl].
  destruct (fromhex_hex_text (header ++ reversebytes (field nonce 4))) as [Hev _].
  { apply hex_text_app. now split. }
  destruct Hev as [binary ->].
  { rewrite length_app, Hfl, Nat.add_comm. exact He. }
  destruct (sha256_hexdigest_hex_text (SHA256.sha256 binary)) as [Hd Hdl].
  destruct (int16_hex_text (reversebytes (sha256_hexdigest (SHA256.sha256 binary))))
    as (v & Hv & Hv0).
  { now apply reversebytes_hex_text. }
  { rewrite reversebytes_length, Hdl. lia. }
  rewrite Hv, Ht. eauto.
Qed.

(** At the nonce [2^32] the field has nine digits, and the attempt cannot be
    read if it could be read at a nonce that fits its field. *)
Lemma iteration_overflow (header target : str) (n0 : Z) :
  0 <= n0 < nonce_limit ->
  iteration header target n0 = Retry ->
  iteration header target nonce_limit = Failed ValueError.
Proof.
  intros Hn0 Hretry.
  destruct (iteration_Retry _ _ _ Hretry) as (binary & _ & _ & Hbin & _).
  destruct (nonce_field n0 Hn0) as [Hf Hfl].
  unfold iteration, hash256, attempt_of.
  rewrite (fromhex_one_more_digit (length header) header (Nat.le_refl _)
             (reversebytes (field n0 4)) (reversebytes (field nonce_limit 4)));
    [reflexivity | exact Hf | apply hex_text_iff; reflexivity
    | rewrite Hfl; reflexivity | eauto].
Qed.

(** The loop goes through the nonces on which the pass goes on. *)
Lemma mining_loop_skip (header target : str) (k : nat) :
  forall nonce fuel,
  (forall n, nonce <= n < nonce + Z.of_nat k -> iteration header target n = Retry) ->
  mining_loop (k + fuel) header target nonce
  = mining_loop fuel header target (nonce + Z.of_nat k).
Proof.
  induction k as [|k IH]; intros nonce fuel H.
  - cbn [Nat.add]. f_equal. cbn. lia.
  - cbn [Nat.add mining_loop]. rewrite H by lia.
    rewrite IH by (intros n Hn; apply H; lia). f_equal. lia.
Qed.

(** A returned pair comes from the first nonce whose pass returns. *)
Lemma mining_loop_Returns (header target : str) (fuel : nat) :
  forall nonce bh r,
  mining_loop fuel header target nonce = Some (Returns (bh, r)) ->
  exists n, nonce <= n < nonce + Z.of_nat fuel /\
            iteration header target n = Solved bh r /\
            forall m, nonce <= m < n -> iteration header target m = Retry.
Proof.
  induction fuel as [|fuel IH]; intros nonce bh r H; [discriminate H|].
  cbn [mining_loop] in H.
  destruct (iteration header target nonce) as [bh' r'| |e] eqn:E.
  - injection H as <- <-. exists nonce.
    split; [lia|]. split; [exact E|]. intros m Hm. lia.
  - destruct (IH _ _ _ H) as (n & Hn & Hs & Hr).
    exists n. split; [lia|]. split; [exact Hs|].
    intros m Hm. destruct (Z.eq_dec m nonce) as [->|]; [exact E|].
    apply Hr. lia.
  - discriminate H.
Qed.

Lemma mining_exhausts (header target : str) :
  (forall n, 0 <= n < nonce_limit -> iteration header target n = Retry) ->
  mining_loop (Z.to_nat (nonce_limit + 1)) header target 0
  = Some (Raises ValueError) /\
  forall fuel, (fuel <= Z.to_nat nonce_limit)%nat ->
               mining_loop fuel header target 0 = None.
Proof.
  intro H. split.
  - replace (Z.to_nat (nonce_limit + 1)) with (Z.to_nat nonce_limit + 1)%nat
      by (unfold nonce_limit; lia).
    rewrite mining_loop_skip by (intros n Hn; apply H; unfold nonce_limit in *; lia).
    replace (0 + Z.of_nat (Z.to_nat nonce_limit)) with nonce_limit
      by (unfold nonce_limit; lia).
    cbn [mining_loop].
    rewrite (iteration_overflow header target 0);
      [reflexivity | unfold nonce_limit; lia | apply H; unfold nonce_limit; lia].
  - intros fuel Hfuel.
    replace fuel with (fuel + 0)%nat by lia.
    rewrite mining_loop_skip; [reflexivity|].
    intros n Hn. apply H. lia.
Qed.

(** With the target zero no pass returns. *)
Lemma zero_target_retries (time_stamp : Z) (target : str)
    (transactions : list transaction) :
  0 <= time_stamp < 2 ^ 32 -> int16 target = Some 0 ->
  forall n, 0 <= n < nonce_limit ->
            iteration (header time_stamp transactions) target n = Retry.
Proof.
  intros Hts Ht n Hn.
  destruct (header_hex_text time_stamp transactions Hts) as [Hh Hl].
  destruct (iteration_in_range (header time_stamp transactions) target n 0)
    as (result & v & _ & Hv & ->); try assumption.
  - now rewrite Hl.
  - destruct (Z.ltb_spec v 0); [lia | reflexivity].
Qed.

(** The search on a target of value zero, for a time that fits its field:
    after [2^32] passes the loop is still running, and the next pass
    raises. *)
Lemma zero_target_exhausts (time_stamp : Z) (target : str)
    (transactions : list transaction) :
  0 <= time_stamp < 2 ^ 32 -> int16 target = Some 0 ->
  mining (Z.to_nat (nonce_limit + 1)) time_stamp target transactions
  = Some (Raises ValueError) /\
  mining (Z.to_nat nonce_limit) time_stamp target transactions = None.
Proof.
  intros Hts Ht.
  destruct (mining_exhausts (header time_stamp transactions) target
              (zero_target_retries time_stamp target transactions Hts Ht))
    as [Hraise Hnone].
  split; [exact Hraise | apply Hnone; apply Nat.le_refl].
Qed.

(** C3 (what the code returns). With the largest 256-bit target the search
    on the coinbase transaction alone, at the time [0x5db8c0ff], returns at
    its first pass, for the nonce 0. The first component of the pair is
    [header], the 144 digits serialized before the loop; it is not the
    152-digit attempt [header + "00000000"] that was hashed. The second
    component is the byte-order reversal of the double SHA-256 of the
    attempt. *)
Theorem mining_returns_header_without_nonce :
  let h := header sample_time [create_coinbase_transaction] in
  mining 1 sample_time max_target [create_coinbase_transaction]
  = Some (Returns (h, lit "60719b62d7ae22d0afe426e6e69a98e3aa2f1c8f0aa0c71e4843ea219e4cd224")) /\
  h = lit "0200000050120119172a610421a6c3011dd330d9df07b63616c2cc1f1cd002000000000071f3cb2b4bed4b0c7a37795bf8d8912fb12c86e6448fd2f3bf9a36123480c999ffc0b85d" /\
  attempt_of h 0 = h ++ lit "00000000" /\
  length h = 144%nat /\ length (attempt_of h 0) = 152%nat /\
  hash256 (attempt_of h 0)
  = Some (lit "24d24c9e21ea43481ec7a00a8f1c2faae3989ae6e626e4afd022aed7629b7160").
Proof. vm_compute. repeat split. Qed.

(** C4 (as the code has it). The loop has no bound and no state or error
    of its own for the end of the nonce space. When every pass for a nonce
    in [[0, 2^32)] goes on to the next nonce, the loop is still running
    after [2^32] passes, and the pass for the nonce [2^32] ends the search:
    its 4-byte field has nine digits, the attempt has an odd number of
    digits, and [bytes.fromhex] raises [ValueError]. *)
Theorem mining_nonce_space_exhausted (time_stamp : Z) (target : str)
    (transactions : list transaction) :
  (forall n, 0 <= n < nonce_limit ->
             iteration (header time_stamp transactions) target n = Retry) ->
  mining (Z.to_nat (nonce_limit + 1)) time_stamp target transactions
  = Some (Raises ValueError) /\
  forall fuel, (fuel <= Z.to_nat nonce_limit)%nat ->
               mining fuel time_stamp target transactions = None.
Proof. intro H. exact (mining_exhausts _ _ H). Qed.

Lemma mining_nonce_space_exhausted_witness :
  mining (Z.to_nat (nonce_limit + 1)) sample_time (lit "0")
         [create_coinbase_transaction]
  = Some (Raises ValueError) /\
  forall fuel, (fuel <= Z.to_nat nonce_limit)%nat ->
               mining fuel sample_time (lit "0") [create_coinbase_transaction] = None.
Proof.
  apply (mining_nonce_space_exhausted sample_time (lit "0")
           [create_coinbase_transaction]).
  apply zero_target_retries; [unfold sample_time; lia | reflexivity].
Defined.

(** C4 as stated fails: on the target zero the search ends with
    [ValueError], which is not an error for the exhausted nonce space. *)
Lemma mining_zero_target_raises_ValueError :
  mining (Z.to_nat (nonce_limit + 1)) sample_time (lit "0")
         [create_coinbase_transaction]
  = Some (Raises ValueError) /\
  mining (Z.to_nat nonce_limit) sample_time (lit "0")
         [create_coinbase_transaction] = None /\
  String.eqb ValueError "NonceSpaceExhausted" = false.
Proof.
  destruct (zero_target_exhausts sample_time (lit "0")
              [create_coinbase_transaction]) as [H1 H2];
    [unfold sample_time; lia | reflexivity |].
  split; [exact H1|]. split; [exact H2 | reflexivity].
Qed.

Lemma slice_middle (A : Type) (a b c : list A) (n m : nat) :
  length a = n -> length b = m -> firstn m (skipn n (a ++ b ++ c)) = b.
Proof.
  intros <- <-.
  rewrite skipn_app, skipn_all, Nat.sub_diag. cbn [skipn app].
  rewrite firstn_app, firstn_all, Nat.sub_diag. cbn [firstn].
  apply app_nil_r.
Qed.

(** C10. Whatever the transactions, the time and the target, the
    characters 8 to 71 of the serialized header are the byte-order reversal
    of the constant [prevblock], also in the header that a successful
    search returns; [mining] takes no previous-block hash from its caller. *)
Theorem header_prev_hash (time_stamp : Z) (transactions : list transaction) :
  prev_hash_part (header time_stamp transactions) = reversebytes prevblock /\
  reversebytes prevblock
  = lit "50120119172a610421a6c3011dd330d9df07b63616c2cc1f1cd0020000000000" /\
  forall fuel target block_header block_hash,
    mining fuel time_stamp target transactions
    = Some (Returns (block_header, block_hash)) ->
    prev_hash_part block_header = reversebytes prevblock.
Proof.
  assert (H : prev_hash_part (header time_stamp transactions)
              = reversebytes prevblock).
  { unfold prev_hash_part, header. apply slice_middle; reflexivity. }
  split; [exact H|]. split; [reflexivity|].
  intros fuel target bh r Hm. unfold mining in Hm.
  destruct (mining_loop_Returns _ _ _ _ _ _ Hm) as (n & _ & Hs & _).
  apply iteration_Solved in Hs. destruct Hs as [-> _]. exact H.
Qed.

Lemma header_prev_hash_witness :
  prev_hash_part (header sample_time [create_coinbase_transaction])
  = reversebytes prevblock /\
  exists block_header block_hash,
    mining 1 sample_time max_target [create_coinbase_transaction]
    = Some (Returns (block_header, block_hash)) /\
    prev_hash_part block_header = reversebytes prevblock.
Proof.
  destruct (header_prev_hash sample_time [create_coinbase_transaction])
    as (H1 & _ & H2).
  split; [exact H1|].
  do 2 eexists. split; [vm_compute; reflexivity|].
  apply (H2 1%nat max_target _ (lit "60719b62d7ae22d0afe426e6e69a98e3aa2f1c8f0aa0c71e4843ea219e4cd224")).
  vm_compute. reflexivity.
Defined.

(* ------------------------------------------------------------------ *)
(** ** The Merkle root *)
(* ------------------------------------------------------------------ *)











(** On the pair [00], [01] the roots do differ; [ab], [cd] and [a], [bcd]
    join to the same text and have the same root; the root of one
    identifier is its SHA-256. *)
Example merkle_root_sample :
  str_eqb (merkle_root [lit "00"; lit "01"]) (merkle_root [lit "01"; lit "00"])
  = false /\
  merkle_root [lit "ab"; lit "cd"] = merkle_root [lit "a"; lit "bcd"] /\
  merkle_root [lit "abc"]
  = lit "ba7816bf8f01cfea414140de5dae2223b00361a396177a9cb410ff61f20015ad".
Proof. repeat split; vm_compute; reflexivity. Qed.


(* ================================================================== *)
(** * Further properties of the program *)
(* ================================================================== *)

(** ** The size of a record and the coinbase test *)

Lemma join_length_2 (sep x y : str) (r : list str) :
  (length x + length sep + length y <= length (join sep (x :: y :: r)))%nat.
Proof. cbn [join flat_map]. rewrite !length_app. lia. Qed.

(** The dump of a dictionary, item by item. *)
Lemma dumps_JDict (items : list (str * json)) :
  dumps false (JDict items)
  = lit "{"
    ++ join (lit ", ")
         (map (fun kv => json_str (fst kv) ++ lit ": " ++ dumps false (snd kv)) items)
    ++ lit "}".
Proof.
  cbn [dumps]. rewrite map_map. do 3 f_equal.
  apply map_ext. intros [k v]. reflexivity.
Qed.

Lemma dumps_JList (l : list json) :
  dumps false (JList l)
  = lit "[" ++ join (lit ", ") (map (dumps false) l) ++ lit "]".
Proof. reflexivity. Qed.

(** A lower bound on the length of the joined text that occurs in the
    goal, from its first two elements. *)
Ltac join_bound H :=
  match goal with
  | |- context [length ?J] =>
      match J with
      | join ?sep (?x :: ?y :: ?r) =>
          assert (H : (length x + length sep + length y <= length J)%nat)
            by apply join_length_2
      end
  end.

Ltac literal_lengths :=
  repeat match goal with
         | |- context [length (json_str (lit ?s))] =>
             let n := eval vm_compute in (length (json_str (lit s))) in
             change (length (json_str (lit s))) with n in *
         | |- context [length (lit ?s)] =>
             let n := eval vm_compute in (length (lit s)) in
             change (length (lit s)) with n in *
         | H : context [length (json_str (lit ?s))] |- _ =>
             let n := eval vm_compute in (length (json_str (lit s))) in
             change (length (json_str (lit s))) with n in *
         | H : context [length (lit ?s)] |- _ =>
             let n := eval vm_compute in (length (lit s)) in
             change (length (lit s)) with n in *
         end.

Lemma dict_of_input_size (i : tx_input) :
  (20 <= length (dumps false (dict_of_input i)))%nat.
Proof.
  unfold dict_of_input. rewrite dumps_JDict.
  cbn [map app fst snd]. rewrite !length_app.
  join_bound H. rewrite !length_app in H. literal_lengths. lia.
Qed.

Lemma dict_of_output_size (o : tx_output) :
  (29 <= length (dumps false (dict_of_output o)))%nat.
Proof.
  unfold dict_of_output. rewrite dumps_JDict.
  cbn [map fst snd]. rewrite !length_app.
  join_bound H. rewrite !length_app in H. literal_lengths. lia.
Qed.

Lemma dumps_JList_size (x : json) (l : list json) :
  (2 + length (dumps false x) <= length (dumps false (JList (x :: l))))%nat.
Proof.
  rewrite dumps_JList. cbn [map join]. rewrite !length_app.
  literal_lengths. lia.
Qed.

(** A record has the five keys of a transaction and a [scriptpubkey] in
    every output, which makes its dump long: on a record with an input and
    an output the size test of the validator cannot fail. Dictionaries with
    fewer keys can be shorter, see [small_tx]. *)
Lemma serialized_size_bound (t : transaction) :
  vin t <> [] -> vout t <> [] -> 100 <= serialized_size t.
Proof.
  intros Hin Hout. unfold serialized_size, dict_of_transaction.
  destruct (vin t) as [|i ins]; [contradiction|].
  destruct (vout t) as [|o outs]; [contradiction|].
  pose proof (dumps_JList_size (dict_of_input i) (map dict_of_input ins)) as Hi.
  pose proof (dumps_JList_size (dict_of_output o) (map dict_of_output outs)) as Ho.
  pose proof (dict_of_input_size i). pose proof (dict_of_output_size o).
  rewrite dumps_JDict. cbn [map fst snd join flat_map].
  rewrite !length_app. literal_lengths. lia.
Qed.

(** X3. The coinbase test of the validator matches an input only when its
    [txid] is the string [0] and its [vout] is -1: it never matches an input
    whose [txid] is an integer, nor one whose [vout] is not negative. The
    input that [create_coinbase_transaction] builds (integer 0, index
    [2^32 - 1]) is not matched, and the validator does not reject the
    coinbase transaction. *)
Theorem coinbase_reference_test :
  (forall i z, in_txid i = PyInt z -> is_coinbase_reference i = false) /\
  (forall i, 0 <= in_vout i -> is_coinbase_reference i = false) /\
  existsb is_coinbase_reference (vin create_coinbase_transaction) = false /\
  validate_transaction create_coinbase_transaction = PyNone.
Proof.
  split; [|split; [|split]].
  - intros i z H. unfold is_coinbase_reference. rewrite H. reflexivity.
  - intros i H. unfold is_coinbase_reference.
    destruct (Z.eqb_spec (in_vout i) (-1)); [lia|]. apply andb_false_r.
  - reflexivity.
  - vm_compute. reflexivity.
Qed.

(** ** The nonce search on every input *)

Lemma hexval_range (c : ascii) (d : Z) : hexval c = Some d -> 0 <= d < 16.
Proof.
  unfold hexval. generalize (ord c). intros n Hd.
  destruct (Z.leb_spec 48 n), (Z.leb_spec n 57), (Z.leb_spec 97 n),
    (Z.leb_spec n 102), (Z.leb_spec 65 n), (Z.leb_spec n 70);
    cbn in Hd; try discriminate; injection Hd as <-; lia.
Qed.

(** The number that a text of [k] digits spells is below [16^k]. *)
Lemma int16_acc_bounds (s : str) :
  forall acc v, 0 <= acc -> int16_acc s acc = Some v ->
  acc * 16 ^ Z.of_nat (length s) <= v < (acc + 1) * 16 ^ Z.of_nat (length s).
Proof.
  induction s as [|c s IH]; intros acc v Hacc H.
  - cbn in H. injection H as <-. cbn. lia.
  - cbn [int16_acc] in H. destruct (hexval c) as [d|] eqn:Hd; [|discriminate H].
    apply hexval_range in Hd.
    apply IH in H; [|lia].
    cbn [length]. rewrite pow16_succ.
    pose proof (pow16_pos (length s)). nia.
Qed.

Lemma int16_upper_bound (s : str) (v : Z) :
  int16 s = Some v -> 0 <= v < 16 ^ Z.of_nat (length s).
Proof.
  intro H. destruct s as [|c s]; [discriminate H|].
  unfold int16 in H. apply int16_acc_bounds in H; lia.
Qed.

Lemma header_length (time_stamp : Z) (transactions : list transaction) :
  0 <= time_stamp ->
  hex_text (header time_stamp transactions) /\
  length (header time_stamp transactions)
  = (136 + length (field time_stamp 4))%nat.
Proof.
  intros Hts. unfold header, merkle_root.
  destruct (sha256_hexdigest_hex_text
              (encode (merkle_text (map txid transactions)))) as [Hm Hml].
  split.
  - apply hex_text_app; split;
      [|apply hex_text_app; split; [|apply hex_text_app; split]].
    + apply hex_text_iff. reflexivity.
    + apply hex_text_iff. reflexivity.
    + now apply reversebytes_hex_text.
    + now apply reversebytes_hex_text, field_hex_text.
  - rewrite !length_app, !reversebytes_length, Hml. reflexivity.
Qed.

(** X4. When the search returns a pair, its first component is the header
    serialized before the loop and its second component is a text of 64
    hexadecimal digits whose byte-order reversal is the double SHA-256 of
    the header followed by the field of some nonce below the number of
    passes allowed; read as a number it is not negative and strictly below
    the target, and for every smaller nonce the pass went on to the next
    one: the nonce is the first that meets the target. *)
Theorem mining_returns_first_solution (fuel : nat) (time_stamp : Z)
    (target : str) (transactions : list transaction) (bh r : str) :
  mining fuel time_stamp target transactions = Some (Returns (bh, r)) ->
  bh = header time_stamp transactions /\
  exists nonce v t,
    0 <= nonce < Z.of_nat fuel /\
    hash256 (attempt_of bh nonce) = Some (reversebytes r) /\
    length r = 64%nat /\ hex_text r /\
    int16 r = Some v /\ int16 target = Some t /\ 0 <= v < t /\
    forall m, 0 <= m < nonce -> iteration bh target m = Retry.
Proof.
  intro H. unfold mining in H.
  destruct (mining_loop_Returns _ _ _ _ _ _ H) as (n & Hn & Hs & Hfirst).
  destruct (iteration_Solved _ _ _ _ _ Hs) as (-> & binary & v & t & Hb & -> & Hv & Ht & Hlt).
  split; [reflexivity|].
  destruct (sha256_hexdigest_hex_text (SHA256.sha256 binary)) as [Hd Hdl].
  fold (sha256_hexdigest (SHA256.sha256 binary)) in *.
  exists n, v, t. split; [lia|]. split.
  { unfold hash256, attempt_of. rewrite Hb.
    rewrite reversebytes_involutive by (now rewrite Hdl). reflexivity. }
  split; [now rewrite reversebytes_length|].
  split; [now apply reversebytes_hex_text|].
  split; [exact Hv|]. split; [exact Ht|].
  split; [|exact Hfirst].
  apply int16_upper_bound in Hv. lia.
Qed.

Lemma mining_returns_first_solution_witness :
  exists nonce v t,
    0 <= nonce < 1 /\
    hash256 (attempt_of (header sample_time [create_coinbase_transaction]) nonce)
    = Some (reversebytes (lit "60719b62d7ae22d0afe426e6e69a98e3aa2f1c8f0aa0c71e4843ea219e4cd224")) /\
    int16 (lit "60719b62d7ae22d0afe426e6e69a98e3aa2f1c8f0aa0c71e4843ea219e4cd224") = Some v /\
    int16 max_target = Some t /\ 0 <= v < t.
Proof.
  destruct (mining_returns_first_solution 1 sample_time max_target
              [create_coinbase_transaction]
              (header sample_time [create_coinbase_transaction])
              (lit "60719b62d7ae22d0afe426e6e69a98e3aa2f1c8f0aa0c71e4843ea219e4cd224"))
    as (_ & n & v & t & Hn & Hh & _ & _ & Hv & Ht & Hlt & _).
  { vm_compute. reflexivity. }
  exists n, v, t. repeat split; try assumption; lia.
Defined.

Lemma mining_loop_terminates_from (header target : str) (k : nat) :
  iteration header target nonce_limit = Failed ValueError ->
  forall nonce, nonce + Z.of_nat k = nonce_limit ->
  exists fuel res,
    (fuel <= S k)%nat /\ mining_loop fuel header target nonce = Some res /\
    (res = Raises ValueError \/ exists r, res = Returns (header, r)).
Proof.
  intro Hlimit. induction k as [|k IH]; intros nonce Hn.
  - exists 1%nat, (Raises ValueError). split; [lia|]. split; [|now left].
    cbn [mining_loop]. replace nonce with nonce_limit by lia.
    now rewrite Hlimit.
  - destruct (iteration header target nonce) as [bh r| |e] eqn:E.
    + exists 1%nat, (Returns (bh, r)). split; [lia|]. split.
      * cbn [mining_loop]. now rewrite E.
      * right. apply iteration_Solved in E. destruct E as [-> _]. eauto.
    + destruct (IH (nonce + 1) ltac:(lia)) as (fuel & res & Hf & Hres & Hkind).
      exists (S fuel), res. split; [lia|]. split; [|exact Hkind].
      cbn [mining_loop]. now rewrite E.
    + exists 1%nat, (Raises e). split; [lia|]. split.
      * cbn [mining_loop]. now rewrite E.
      * left. now rewrite (iteration_Failed _ _ _ _ E).
Qed.

Lemma mining_loop_terminates (h target : str) :
  exists fuel res,
    Z.of_nat fuel <= nonce_limit + 1 /\
    mining_loop fuel h target 0 = Some res /\
    (res = Raises ValueError \/ exists r, res = Returns (h, r)).
Proof.
  destruct (iteration h target 0) as [bh r| |e] eqn:E.
  - exists 1%nat, (Returns (bh, r)). split; [unfold nonce_limit; lia|]. split.
    + cbn [mining_loop]. now rewrite E.
    + right. apply iteration_Solved in E. destruct E as [-> _]. eauto.
  - assert (Hlimit : iteration h target nonce_limit = Failed ValueError).
    { apply (iteration_overflow h target 0); [unfold nonce_limit; lia | exact E]. }
    destruct (mining_loop_terminates_from h target (Z.to_nat nonce_limit) Hlimit 0)
      as (fuel & res & Hf & Hres & Hkind); [unfold nonce_limit; lia|].
    exists fuel, res. split; [unfold nonce_limit in *; lia|]. now split.
  - exists 1%nat, (Raises e). split; [unfold nonce_limit; lia|]. split.
    + cbn [mining_loop]. now rewrite E.
    + left. now rewrite (iteration_Failed _ _ _ _ E).
Qed.

(** X5. The search always ends, although its loop is [while True]: for
    every time, target and list of transactions there is a number of passes,
    at most [2^32 + 1], after which [mining] has either returned a pair
    whose first component is the header or raised [ValueError]. *)
Theorem mining_terminates (time_stamp : Z) (target : str)
    (transactions : list transaction) :
  exists fuel res,
    Z.of_nat fuel <= nonce_limit + 1 /\
    mining fuel time_stamp target transactions = Some res /\
    (res = Raises ValueError \/
     exists r, res = Returns (header time_stamp transactions, r)).
Proof. exact (mining_loop_terminates (header time_stamp transactions) target). Qed.

(** X6. A target above every 256-bit number is met at once: when the time
    fits its 4-byte field and the target spells a number of [2^256] or
    more, the search returns at its first pass, for the nonce 0. *)
Theorem mining_high_target (time_stamp t : Z) (target : str)
    (transactions : list transaction) (fuel : nat) :
  0 <= time_stamp < 2 ^ 32 -> int16 target = Some t -> 2 ^ 256 <= t ->
  exists r,
    mining (S fuel) time_stamp target transactions
    = Some (Returns (header time_stamp transactions, r)) /\
    hash256 (attempt_of (header time_stamp transactions) 0)
    = Some (reversebytes r).
Proof.
  intros Hts Ht Hbig. unfold mining. cbn [mining_loop].
  destruct (header_hex_text time_stamp transactions Hts) as [Hh Hl].
  set (h := header time_stamp transactions) in *.
  destruct (nonce_field 0 ltac:(unfold nonce_limit; lia)) as [Hf Hfl].
  destruct (fromhex_hex_text (h ++ reversebytes (field 0 4))) as [Hev _].
  { apply hex_text_app. now split. }
  destruct Hev as [binary Hbin].
  { rewrite length_app, Hfl, Hl. reflexivity. }
  destruct (sha256_hexdigest_hex_text (SHA256.sha256 binary)) as [Hd Hdl].
  remember (sha256_hexdigest (SHA256.sha256 binary)) as digest eqn:Hdig.
  destruct (int16_hex_text (reversebytes digest)) as (v & Hv & Hv0).
  { now apply reversebytes_hex_text. }
  { rewrite reversebytes_length, Hdl. lia. }
  pose proof (int16_upper_bound _ _ Hv) as Hub.
  rewrite reversebytes_length, Hdl in Hub.
  change (16 ^ Z.of_nat 64) with (2 ^ 256) in Hub.
  assert (Hhash : hash256 (attempt_of h 0) = Some digest).
  { unfold hash256, attempt_of. rewrite Hbin. now subst digest. }
  exists (reversebytes digest). split.
  - unfold iteration. rewrite Hhash, Hv, Ht.
    destruct (Z.ltb_spec v t); [reflexivity | lia].
  - rewrite reversebytes_involutive by (now rewrite Hdl). exact Hhash.
Qed.

Lemma mining_high_target_witness :
  exists r,
    mining 1 sample_time
      (lit "10000000000000000000000000000000000000000000000000000000000000000")
      [create_coinbase_transaction]
    = Some (Returns (header sample_time [create_coinbase_transaction], r)) /\
    hash256 (attempt_of (header sample_time [create_coinbase_transaction]) 0)
    = Some (reversebytes r).
Proof.
  apply (mining_high_target sample_time (2 ^ 256)
           (lit "10000000000000000000000000000000000000000000000000000000000000000")
           [create_coinbase_transaction] 0).
  - unfold sample_time. lia.
  - reflexivity.
  - lia.
Defined.

Lemma field_nine_digits (time_stamp : Z) :
  2 ^ 32 <= time_stamp < 2 ^ 36 -> length (field time_stamp 4) = 9%nat.
Proof.
  intros [Hlo Hhi]. unfold field, format_0x.
  destruct (Z.ltb_spec time_stamp 0); [lia|].
  destruct (hex_spec time_stamp ltac:(lia)) as (k & Hk & Hlen & Hub & Hlb & _).
  rewrite zfill_length, Hlen.
  assert (Z.of_nat 8 < Z.of_nat k).
  { apply (Z.pow_lt_mono_r_iff 16); [lia | lia |].
    change (16 ^ Z.of_nat 8) with (2 ^ 32). lia. }
  assert (Z.of_nat k - 1 < Z.of_nat 9).
  { destruct Hlb as [->|Hlb]; [lia|].
    apply (Z.pow_lt_mono_r_iff 16); [lia | lia |].
    change (16 ^ Z.of_nat 9) with (2 ^ 36). lia. }
  lia.
Qed.

(** X7. The time is written on a minimum of eight digits and never cut:
    a time in [[2^32, 2^36)] (from the year 2106 on) takes nine digits, the
    attempt then has an odd number of digits, and the search raises
    [ValueError] at its first pass, whatever the target and the
    transactions. *)
Theorem mining_time_overflow (time_stamp : Z) (target : str)
    (transactions : list transaction) (fuel : nat) :
  2 ^ 32 <= time_stamp < 2 ^ 36 ->
  length (header time_stamp transactions) = 145%nat /\
  mining (S fuel) time_stamp target transactions = Some (Raises ValueError).
Proof.
  intro Hts.
  destruct (header_length time_stamp transactions ltac:(lia)) as [Hh Hl].
  rewrite (field_nine_digits time_stamp Hts) in Hl.
  split; [exact Hl|].
  unfold mining. cbn [mining_loop]. unfold iteration, hash256, attempt_of.
  destruct (nonce_field 0 ltac:(unfold nonce_limit; lia)) as [Hf Hfl].
  destruct (fromhex_hex_text
              (header time_stamp transactions ++ reversebytes (field 0 4)))
    as [_ Hodd].
  { apply hex_text_app. now split. }
  rewrite Hodd; [reflexivity|].
  rewrite length_app, Hfl, Hl. reflexivity.
Qed.

Lemma mining_time_overflow_witness :
  length (header (2 ^ 32) [create_coinbase_transaction]) = 145%nat /\
  mining 1 (2 ^ 32) difficulty_target [create_coinbase_transaction]
  = Some (Raises ValueError).
Proof.
  apply (mining_time_overflow (2 ^ 32) difficulty_target
           [create_coinbase_transaction] 0). lia.
Defined.

Lemma skipn_exact (A : Type) (a b : list A) (n : nat) :
  length a = n -> skipn n (a ++ b) = b.
Proof.
  intros <-. rewrite skipn_app, skipn_all, Nat.sub_diag. reflexivity.
Qed.

Lemma firstn_exact (A : Type) (a b : list A) (n : nat) :
  length a = n -> firstn n (a ++ b) = a.
Proof.
  intros <-. rewrite firstn_app, firstn_all, Nat.sub_diag. cbn [firstn].
  apply app_nil_r.
Qed.

(** X8. The layout of the header for a time that fits four bytes: 144
    digits, of which the first eight are the version 2 in byte-reversed
    order, the digits 72 to 135 are the byte-order reversal of the Merkle
    root that [construct_block_header] computes for the same transactions,
    and the last eight are the time: reversed back and read in base 16 they
    give the time again. *)
Theorem header_layout (time_stamp : Z) (transactions : list transaction)
    (prev_block_hash : str) (nonce : Z) :
  0 <= time_stamp < 2 ^ 32 ->
  let h := header time_stamp transactions in
  let fields := construct_block_header time_stamp transactions prev_block_hash nonce in
  length h = 144%nat /\
  firstn 8 h = lit "02000000" /\
  int16 (reversebytes (firstn 8 h)) = Some (bh_version fields) /\
  reversebytes (firstn 64 (skipn 72 h)) = bh_merkle_root fields /\
  int16 (reversebytes (skipn 136 h)) = Some (bh_time fields).
Proof.
  intros Hts h fields.
  destruct (header_hex_text time_stamp transactions Hts) as [_ Hl].
  destruct (sha256_hexdigest_hex_text
              (encode (merkle_text (map txid transactions)))) as [_ Hml].
  destruct (nonce_field time_stamp Hts) as [_ Htl].
  assert (Hfl : length (field time_stamp 4) = 8%nat)
    by (now rewrite <- reversebytes_length).
  split; [exact Hl|]. subst h fields. unfold header, construct_block_header.
  cbn [bh_version bh_merkle_root bh_time]. fold (merkle_root (map txid transactions)).
  set (a := reversebytes (field 2 4)).
  set (b := reversebytes prevblock).
  set (m := merkle_root (map txid transactions)).
  set (d := field time_stamp 4).
  assert (Hm : length m = 64%nat) by exact Hml.
  split; [|split; [|split]].
  - now rewrite firstn_exact.
  - now rewrite firstn_exact.
  - rewrite (app_assoc a b).
    rewrite skipn_exact by (rewrite length_app; reflexivity).
    rewrite firstn_exact by (now rewrite reversebytes_length).
    apply reversebytes_involutive. now rewrite Hm.
  - rewrite (app_assoc a b), (app_assoc (a ++ b)).
    rewrite skipn_exact
      by (rewrite !length_app, reversebytes_length, Hm; reflexivity).
    rewrite reversebytes_involutive by (subst d; now rewrite Hfl).
    subst d. now destruct (field_nonneg time_stamp 4 ltac:(lia)) as [-> _].
Qed.

Lemma header_layout_witness :
  length (header sample_time [create_coinbase_transaction]) = 144%nat /\
  int16 (reversebytes (skipn 136 (header sample_time [create_coinbase_transaction])))
  = Some sample_time.
Proof.
  destruct (header_layout sample_time [create_coinbase_transaction] prevblock 0)
    as (H1 & _ & _ & _ & H5); [unfold sample_time; lia|].
  split; [exact H1 | exact H5].
Defined.

(** X9. [hash256] on a text of hexadecimal digits: with an even number of
    digits it returns 64 lower-case hexadecimal digits, the digest of the
    digest of the bytes spelled; with an odd number of digits it raises. *)
Theorem hash256_hex_text (data : str) :
  hex_text data ->
  (Nat.even (length data) = true ->
   exists binary,
     fromhex data = Some binary /\
     hash256 data = Some (hexlify (SHA256.sha256 (SHA256.sha256 binary))) /\
     length (hexlify (SHA256.sha256 (SHA256.sha256 binary))) = 64%nat /\
     hex_text (hexlify (SHA256.sha256 (SHA256.sha256 binary)))) /\
  (Nat.odd (length data) = true -> hash256 data = None).
Proof.
  intro H. destruct (fromhex_hex_text data H) as [He Ho]. split.
  - intro Hl. destruct (He Hl) as [binary Hb]. exists binary.
    destruct (sha256_hexdigest_hex_text (SHA256.sha256 binary)) as [Hd Hdl].
    split; [exact Hb|]. split; [|split; assumption].
    unfold hash256. rewrite Hb. reflexivity.
  - intro Hl. unfold hash256. now rewrite (Ho Hl).
Qed.

Lemma hash256_hex_text_witness :
  hash256 (lit "000000010") = None /\
  exists binary, fromhex (lit "00ff") = Some binary /\
    hash256 (lit "00ff") = Some (hexlify (SHA256.sha256 (SHA256.sha256 binary))).
Proof.
  split.
  - destruct (hash256_hex_text (lit "000000010")) as [_ Ho];
      [apply hex_text_iff; reflexivity | apply Ho; reflexivity].
  - destruct (hash256_hex_text (lit "00ff")) as [He _];
      [apply hex_text_iff; reflexivity|].
    destruct (He eq_refl) as (binary & Hb & Hh & _). eauto.
Defined.

(** ** [main] on every pool *)



(** ** Reading the pool *)

Lemma str_eqb_refl (a : str) : str_eqb a a = true.
Proof. now apply str_eqb_eq. Qed.

Lemma dict_get_set_same (k : str) (v : json) (items : list (str * json)) :
  dict_get k (dict_set k v items) = Some v.
Proof.
  induction items as [|[k' v'] items IH]; cbn.
  - now rewrite str_eqb_refl.
  - destruct (str_eqb k' k) eqn:E; cbn; rewrite E; [reflexivity | exact IH].
Qed.

Lemma dict_get_set_other (k k' : str) (v : json) (items : list (str * json)) :
  k' <> k -> dict_get k' (dict_set k v items) = dict_get k' items.
Proof.
  intro Hne. induction items as [|[k0 v0] items IH]; cbn.
  - destruct (str_eqb k k') eqn:E; [|reflexivity].
    apply str_eqb_eq in E. congruence.
  - destruct (str_eqb k0 k) eqn:E; cbn; [|now rewrite IH].
    apply str_eqb_eq in E. subst k0.
    destruct (str_eqb k k') eqn:E'; [|reflexivity].
    apply str_eqb_eq in E'. congruence.
Qed.

Lemma with_txid_identified (data d : json) :
  with_txid data = Returns d -> identified data d.
Proof.
  unfold with_txid, identified, txid_of.
  destruct (sha256_hexdigest_hex_text (encode (dumps false data))) as [Hh Hl].
  generalize dependent (sha256_hexdigest (encode (dumps false data))).
  intros digest Hh Hl.
  destruct data as [| | | | | |items]; try (intro H; discriminate H).
  intro H. injection H as <-. unfold is_dict, get.
  split; [reflexivity|]. split; [apply dict_get_set_same|].
  split; [intros k Hk; now apply dict_get_set_other|].
  exists digest. split; [reflexivity|]. now split.
Qed.

Lemma with_txid_not_dict (data : json) :
  is_dict data = false -> with_txid data = Raises TypeError.
Proof.
  unfold with_txid. destruct data; try reflexivity. intro H. discriminate H.
Qed.

Lemma with_txid_dict (data : json) :
  is_dict data = true -> exists d, with_txid data = Returns d.
Proof.
  unfold with_txid. destruct data; try (intro H; discriminate H).
  intros _. eexists. reflexivity.
Qed.

(** X12. [read_transactions_from_mempool] looks only at the files whose
    name ends with [.json], in the order of the listing. When each of them
    holds a dictionary it returns one dictionary per file, in which [txid]
    is the SHA-256 (64 hexadecimal digits) of the dump of the content as
    loaded, replacing any [txid] of the file, and every other key has the
    value of the file; when one of them holds another kind of value it
    raises [TypeError]. *)
Theorem read_transactions_from_mempool_spec (files : list (str * json)) :
  (forall l, read_transactions_from_mempool files = Returns l ->
             Forall2 identified (json_files files) l) /\
  (forallb is_dict (json_files files) = true ->
   exists l, read_transactions_from_mempool files = Returns l) /\
  (forallb is_dict (json_files files) = false ->
   read_transactions_from_mempool files = Raises TypeError).
Proof.
  unfold json_files.
  induction files as [|[filename data] files (IH1 & IH2 & IH3)].
  - split; [|split].
    + intros l H. injection H as <-. constructor.
    + intros _. now exists [].
    + discriminate.
  - cbn [read_transactions_from_mempool filter fst].
    destruct (endswith filename (lit ".json")); [|now split].
    cbn [map snd forallb].
    split; [|split].
    + intros l H.
      destruct (with_txid data) as [d|e] eqn:Ed; [|discriminate H].
      destruct (read_transactions_from_mempool files) as [l'|e];
        [|discriminate H].
      injection H as <-. constructor;
        [now apply with_txid_identified | now apply IH1].
    + intro H. apply andb_true_iff in H. destruct H as [Hd Hrest].
      destruct (with_txid_dict data Hd) as [d ->].
      destruct (IH2 Hrest) as [l ->]. eauto.
    + intro H. destruct (is_dict data) eqn:Hd.
      * destruct (with_txid_dict data Hd) as [d ->].
        cbn [andb] in H. now rewrite (IH3 H).
      * now rewrite (with_txid_not_dict data Hd).
Qed.

Example read_transactions_sample :
  exists d,
    read_transactions_from_mempool
      [(lit "notes.txt", JNull);
       (lit "a.json", JDict [(lit "txid", JStr (lit "x")); (lit "locktime", JInt 0)])]
    = Returns [d] /\
    get (lit "locktime") d = Some (JInt 0) /\
    get (lit "txid") d
    = Some (JStr (lit "9fe836bb1f1a2304cc520d3ca24e563046ba8f7ba32b68b832fa5e0c193c7606")).
Proof. eexists. split; [vm_compute; reflexivity|]. split; vm_compute; reflexivity. Qed.

Example read_transactions_not_dict :
  read_transactions_from_mempool [(lit "a.json", JList [])] = Raises TypeError.
Proof. reflexivity. Qed.

(** ** Texts through the codec and the dump *)

(** X13. [reversebytes] never fails and neither drops nor invents a
    character: on every text, of even or odd length, hexadecimal or not, its
    result has the same length and the same characters, in another order. *)
Theorem reversebytes_permutation (data : str) :
  length (reversebytes data) = length data /\
  Permutation data (reversebytes data).
Proof.
  split; [apply reversebytes_length|].
  unfold reversebytes. rewrite <- (concat_chunks2 data) at 1.
  generalize (chunks2 data). intro l.
  induction l as [|x l IH]; [constructor|].
  cbn [rev concat]. rewrite concat_app. cbn [concat]. rewrite app_nil_r.
  etransitivity; [|apply Permutation_app_comm].
  now apply Permutation_app_head.
Qed.

Lemma json_induction (P : json -> Prop) :
  P JNull -> (forall b, P (JBool b)) -> (forall z, P (JInt z)) ->
  (forall f, P (JFloat f)) -> (forall s, P (JStr s)) ->
  (forall l, Forall P l -> P (JList l)) ->
  (forall items, Forall (fun kv => P (snd kv)) items -> P (JDict items)) ->
  forall j, P j.
Proof.
  intros HN HB HI HF HS HL HD. fix IH 1.
  intros [| b | z | f | s | l | items];
    [exact HN | apply HB | apply HI | apply HF | apply HS | | ].
  - apply HL. induction l as [|x l IHl]; constructor; [apply IH | exact IHl].
  - apply HD. induction items as [|[k v] items IHi]; constructor;
      [apply IH | exact IHi].
Qed.

Lemma printable_iff (s : str) : forallb printableb s = true <-> printable s.
Proof.
  unfold printable. induction s as [|c s IH]; cbn.
  - split; [constructor | reflexivity].
  - rewrite andb_true_iff, IH. split.
    + intros [Hc Hs]. now constructor.
    + intro H. inversion H; subst. now split.
Qed.

Lemma printable_app (a b : str) : printable (a ++ b) <-> printable a /\ printable b.
Proof. apply Forall_app. Qed.

Lemma printable_join (sep : str) (l : list str) :
  printable sep -> Forall printable l -> printable (join sep l).
Proof.
  intros Hsep Hl. destruct Hl as [|x l Hx Hl]; [constructor|].
  cbn [join]. apply printable_app. split; [exact Hx|].
  induction Hl as [|y l Hy Hl IH]; [constructor|].
  cbn [flat_map]. rewrite <- app_assoc.
  apply printable_app. split; [exact Hsep|].
  apply printable_app. now split.
Qed.

Lemma hexdigit_printable (c : ascii) : is_hexdigit c = true -> printableb c = true.
Proof.
  unfold is_hexdigit, hexval, printableb. generalize (ord c). intro n.
  destruct (Z.leb_spec 48 n), (Z.leb_spec n 57), (Z.leb_spec 97 n),
    (Z.leb_spec n 102), (Z.leb_spec 65 n), (Z.leb_spec n 70);
    cbn; try discriminate; intros _;
    destruct (Z.leb_spec 32 n), (Z.leb_spec n 126); cbn; try reflexivity; lia.
Qed.

Lemma json_escape_printable (c : ascii) : printable (json_escape c).
Proof.
  unfold json_escape.
  repeat match goal with
         | |- context [if ?n =? ?k then _ else _] =>
             destruct (n =? k); [apply printable_iff; reflexivity|]
         end.
  destruct ((32 <=? ord c) && (ord c <=? 126)) eqn:E.
  - constructor; [exact E | constructor].
  - constructor; [reflexivity|]. constructor; [reflexivity|].
    unfold zfill. apply printable_app. split.
    + apply Forall_forall. intros x Hx. apply repeat_spec in Hx. now subst.
    + eapply Forall_impl; [|apply hex_acc_hex_text; constructor].
      intros a Ha. now apply hexdigit_printable.
Qed.

Lemma json_str_printable (s : str) : printable (json_str s).
Proof.
  unfold json_str. constructor; [reflexivity|].
  apply printable_app. split; [|apply printable_iff; reflexivity].
  induction s as [|c s IH]; [constructor|].
  cbn [flat_map]. apply printable_app. split; [apply json_escape_printable | exact IH].
Qed.

Lemma string_of_uint_printable (d : Decimal.uint) :
  printable (lit (NilEmpty.string_of_uint d)).
Proof.
  unfold lit. induction d; cbn [NilEmpty.string_of_uint list_ascii_of_string];
    constructor; solve [reflexivity | assumption].
Qed.

Lemma json_int_printable (z : Z) : printable (json_int z).
Proof.
  unfold json_int, NilZero.string_of_int.
  assert (H : forall d, printable (lit (NilZero.string_of_uint d))).
  { intro d. unfold NilZero.string_of_uint.
    destruct d; try apply string_of_uint_printable.
    apply printable_iff. reflexivity. }
  destruct (Z.to_int z) as [d|d]; [apply H|].
  unfold lit. cbn [list_ascii_of_string]. constructor; [reflexivity | apply H].
Qed.

Lemma printable_firstn (n : nat) (s : str) : printable s -> printable (firstn n s).
Proof.
  intro H. rewrite <- (firstn_skipn n s) in H. now apply printable_app in H.
Qed.

Lemma printable_skipn (n : nat) (s : str) : printable s -> printable (skipn n s).
Proof.
  intro H. rewrite <- (firstn_skipn n s) in H. now apply printable_app in H.
Qed.

Lemma zeros_printable (n : Z) : printable (zeros n).
Proof.
  apply Forall_forall. intros x Hx. apply repeat_spec in Hx. now subst.
Qed.

Lemma layout_printable (digits point : Z) : printable (layout digits point).
Proof.
  unfold layout. pose proof (json_int_printable digits) as Hd.
  destruct ((point <=? -4) || (16 <? point)).
  - apply printable_app. split.
    + destruct (json_int digits) as [|d rest]; [constructor|].
      inversion Hd as [|? ? Hc Hr]; subst.
      destruct rest; repeat (constructor; try assumption).
    + apply printable_app. split; [apply printable_iff; reflexivity|].
      apply printable_app. split;
        [destruct (point - 1 <? 0); apply printable_iff; reflexivity|].
      apply printable_app. split; [|apply json_int_printable].
      destruct (Z.abs (point - 1) <? 10); apply printable_iff; reflexivity.
  - destruct (point <=? 0).
    + apply printable_app. split; [apply printable_iff; reflexivity|].
      apply printable_app. split; [apply zeros_printable | exact Hd].
    + destruct (Z.of_nat (length (json_int digits)) <=? point).
      * apply printable_app. split; [exact Hd|].
        apply printable_app. split;
          [apply zeros_printable | apply printable_iff; reflexivity].
      * apply printable_app. split; [now apply printable_firstn|].
        apply printable_app. split;
          [apply printable_iff; reflexivity | now apply printable_skipn].
Qed.

Lemma float_repr_printable (f : spec_float) : printable (float_repr f).
Proof.
  destruct f as [[|]|[|]| |s m e]; try (apply printable_iff; reflexivity).
  unfold float_repr.
  destruct (shortest 17 (Z.pos m) e _ 1) as [digits point].
  apply printable_app. split; [|apply layout_printable].
  destruct s; apply printable_iff; reflexivity.
Qed.

Lemma insert_item_Forall (P : str * str -> Prop) (kv : str * str)
    (l : list (str * str)) :
  P kv -> Forall P l -> Forall P (insert_item kv l).
Proof.
  intros Hkv Hl. induction Hl as [|h t Hh Ht IH]; cbn [insert_item].
  - now constructor.
  - destruct (str_ltb (fst kv) (fst h)); now repeat constructor.
Qed.

Lemma sort_items_Forall (P : str * str -> Prop) (l : list (str * str)) :
  Forall P l -> Forall P (sort_items l).
Proof.
  unfold sort_items. induction 1 as [|h t Hh Ht IH]; cbn [fold_right].
  - constructor.
  - now apply insert_item_Forall.
Qed.

Lemma dumps_printable (sort_keys : bool) (j : json) : printable (dumps sort_keys j).
Proof.
  induction j as [|b|z|f|s|l IH|items IH] using json_induction.
  - apply printable_iff. reflexivity.
  - destruct b; apply printable_iff; reflexivity.
  - apply json_int_printable.
  - apply float_repr_printable.
  - apply json_str_printable.
  - cbn [dumps]. apply printable_app. split; [apply printable_iff; reflexivity|].
    apply printable_app. split; [|apply printable_iff; reflexivity].
    apply printable_join; [apply printable_iff; reflexivity|].
    induction IH as [|x l Hx Hl IHl]; cbn [map]; now constructor.
  - cbn [dumps]. apply printable_app. split; [apply printable_iff; reflexivity|].
    apply printable_app. split; [|apply printable_iff; reflexivity].
    apply printable_join; [apply printable_iff; reflexivity|].
    assert (Hr : Forall (fun kv : str * str => printable (snd kv))
                   (map (fun kv : str * json =>
                           let '(k, v) := kv in (k, dumps sort_keys v)) items)).
    { induction IH as [|[k v] l Hx Hl IHl]; cbn [map]; now constructor. }
    assert (Ho : forall o : list (str * str),
               Forall (fun kv => printable (snd kv)) o ->
               Forall printable
                 (map (fun kv => json_str (fst kv) ++ lit ": " ++ snd kv) o)).
    { intros o Hf. induction Hf as [|kv o Hkv Hf IHo]; cbn [map]; constructor;
        [|exact IHo].
      apply printable_app. split; [apply json_str_printable|].
      apply printable_app. split; [apply printable_iff; reflexivity | exact Hkv]. }
    destruct sort_keys; apply Ho; [now apply sort_items_Forall | exact Hr].
Qed.

Lemma encode_printable_length (s : str) :
  printable s -> length (encode s) = length s.
Proof.
  unfold encode. induction 1 as [|c s Hc Hs IH]; [reflexivity|].
  cbn [flat_map]. rewrite length_app, IH. unfold utf8, printableb in *.
  apply andb_true_iff in Hc. destruct Hc as [_ Hc]. apply Z.leb_le in Hc.
  destruct (Z.ltb_spec (ord c) 128); [reflexivity | lia].
Qed.

(** X14. What [json.dumps] writes is made of the ASCII characters 32 to 126
    only, with or without [sort_keys]; its length in characters is therefore
    its length in bytes once encoded, and the number that the validator
    calls [transaction_size_bytes] is the byte count of the dump. *)
Theorem dumps_ascii (sort_keys : bool) (j : json) (t : transaction) :
  printable (dumps sort_keys j) /\
  length (encode (dumps sort_keys j)) = length (dumps sort_keys j) /\
  Z.of_nat (length (encode (dumps false (dict_of_transaction t))))
  = serialized_size t.
Proof.
  split; [apply dumps_printable|]. split.
  - apply encode_printable_length, dumps_printable.
  - unfold serialized_size. f_equal.
    apply encode_printable_length, dumps_printable.
Qed.

(** ** What the hashed text is made of *)

Lemma fromhex_length (s : str) :
  hex_text s -> forall bs, fromhex s = Some bs -> (2 * length bs)%nat = length s.
Proof.
  induction s as [|a|a b s IH] using list_pair_ind; intros H bs E.
  - injection E as <-. reflexivity.
  - inversion H as [|? ? Ha _]; subst. cbn in E.
    rewrite (hexdigit_not_space a Ha) in E. discriminate E.
  - inversion H as [|? ? Ha H']; subst. inversion H' as [|? ? Hb Hs]; subst.
    cbn [fromhex] in E. rewrite (hexdigit_not_space a Ha) in E.
    destruct (hexval a); [|discriminate E].
    destruct (hexval b); [|discriminate E].
    destruct (fromhex s) as [bs'|] eqn:Es; [|discriminate E].
    injection E as <-. cbn [length]. rewrite <- (IH Hs bs' eq_refl). lia.
Qed.

(** X16. What is hashed at each pass, for a time and a nonce that fit four
    bytes: a text of 152 digits that spells 76 bytes (version, previous
    hash, Merkle root, time and nonce; no field for the difficulty bits),
    whose last eight digits, reversed back and read in base 16, give the
    nonce. *)
Theorem attempt_layout (time_stamp nonce : Z) (transactions : list transaction) :
  0 <= time_stamp < 2 ^ 32 -> 0 <= nonce < 2 ^ 32 ->
  let attempt := attempt_of (header time_stamp transactions) nonce in
  length attempt = 152%nat /\
  (exists binary, fromhex attempt = Some binary /\ length binary = 76%nat) /\
  firstn 144 attempt = header time_stamp transactions /\
  int16 (reversebytes (skipn 144 attempt)) = Some nonce.
Proof.
  intros Hts Hn attempt. subst attempt. unfold attempt_of.
  destruct (header_hex_text time_stamp transactions Hts) as [Hh Hl].
  destruct (nonce_field nonce Hn) as [Hf Hfl].
  assert (Hlen : length (header time_stamp transactions
                         ++ reversebytes (field nonce 4)) = 152%nat)
    by (now rewrite length_app, Hl, Hfl).
  assert (Hhex : hex_text (header time_stamp transactions
                           ++ reversebytes (field nonce 4)))
    by (apply hex_text_app; now split).
  split; [exact Hlen|]. split; [|split].
  - destruct (fromhex_hex_text _ Hhex) as [Hev _].
    destruct Hev as [binary Hb]; [now rewrite Hlen|].
    exists binary. split; [exact Hb|].
    pose proof (fromhex_length _ Hhex binary Hb) as H2. rewrite Hlen in H2. lia.
  - now apply firstn_exact.
  - rewrite skipn_exact by exact Hl.
    rewrite reversebytes_involutive
      by (rewrite reversebytes_length in Hfl; now rewrite Hfl).
    now destruct (field_nonneg nonce 4 ltac:(lia)) as [-> _].
Qed.

Lemma attempt_layout_witness :
  length (attempt_of (header sample_time [create_coinbase_transaction]) 274148111)
  = 152%nat /\
  int16 (reversebytes
           (skipn 144 (attempt_of (header sample_time [create_coinbase_transaction])
                         274148111)))
  = Some 274148111.
Proof.
  destruct (attempt_layout sample_time 274148111 [create_coinbase_transaction])
    as (H1 & _ & _ & H4); [unfold sample_time; lia | lia |].
  split; [exact H1 | exact H4].
Defined.


(* ================================================================== *)
(** * The validator on dictionaries *)
(* ================================================================== *)

(** ** Comparisons of numbers *)

Lemma num_compare_int (a b : Z) : num_compare (NInt a) (NInt b) = Some (a ?= b).
Proof. unfold num_compare, exact_of. cbn. now rewrite !Z.mul_1_r. Qed.

Lemma num_lt_int (a b : Z) : num_lt (NInt a) (NInt b) = (a <? b).
Proof. unfold num_lt. now rewrite num_compare_int. Qed.

Lemma num_gt_int (a b : Z) : num_gt (NInt a) (NInt b) = (a >? b).
Proof. unfold num_gt. now rewrite num_compare_int. Qed.

Lemma num_eq_int (a b : Z) : num_eq (NInt a) (NInt b) = (a =? b).
Proof.
  unfold num_eq. rewrite num_compare_int.
  destruct (Z.compare_spec a b), (Z.eqb_spec a b); try reflexivity; lia.
Qed.

Lemma num_le_int (a b : Z) : num_le (NInt a) (NInt b) = (a <=? b).
Proof. unfold num_le. rewrite num_compare_int. unfold Z.leb. now destruct (a ?= b). Qed.

(** Exchanging the two numbers exchanges [Lt] and [Gt]. *)
Lemma num_compare_antisym (a b : num) :
  num_compare b a = option_map CompOpp (num_compare a b).
Proof.
  unfold num_compare.
  destruct (exact_of a) as [| | |n1 e1], (exact_of b) as [| | |n2 e2];
    try reflexivity.
  cbn [option_map]. rewrite (Z.min_comm e2 e1), Z.compare_antisym. reflexivity.
Qed.

Lemma num_compare_nan (a b : num) :
  is_nan a = true -> num_compare a b = None /\ num_compare b a = None.
Proof.
  destruct a as [z|[s|s| |s m e]]; try discriminate. intros _.
  unfold num_compare. cbn [exact_of]. split; [reflexivity|].
  now destruct (exact_of b).
Qed.

Lemma num_compare_total (a : num) (k : Z) :
  is_nan a = false -> exists c, num_compare a (NInt k) = Some c.
Proof.
  destruct a as [z|[s|s| |s m e]]; try discriminate; intros _;
    unfold num_compare; cbn [exact_of]; try destruct s; eauto.
Qed.

(** A number passes the tests [v < lo] and [v > hi] when it is in
    [[lo, hi]], and also when it is NaN. *)
Lemma passes_iff (lo hi : Z) (v : num) :
  num_lt v (NInt lo) = false /\ num_gt v (NInt hi) = false <->
  is_nan v = true \/ in_range lo hi v.
Proof.
  unfold in_range, num_lt, num_gt, num_le.
  rewrite (num_compare_antisym v (NInt lo)).
  destruct (is_nan v) eqn:Hn.
  - destruct (num_compare_nan v (NInt lo) Hn) as [-> _].
    destruct (num_compare_nan v (NInt hi) Hn) as [-> _].
    split; [now left | now split].
  - destruct (num_compare_total v lo Hn) as [c1 ->].
    destruct (num_compare_total v hi Hn) as [c2 ->].
    cbn [option_map]. split.
    + intros [H1 H2]. right. destruct c1, c2; cbn; try discriminate; now split.
    + intros [H|[H1 H2]]; [discriminate H|].
      destruct c1, c2; cbn in *; try discriminate; now split.
Qed.

(** ** The two loops *)

Lemma output_value_Some (output : json) (v : num) :
  output_value output = Some v ->
  exists j, getitem output (lit "value") = Returns j /\ to_num j = Some v.
Proof.
  unfold output_value. destruct (getitem output (lit "value")) as [j|e];
    [eauto | discriminate].
Qed.

Lemma outputs_loop_step (output : json) (rest : list json) (j : json)
    (v total : num) :
  getitem output (lit "value") = Returns j -> to_num j = Some v ->
  outputs_loop (output :: rest) total
  = if num_lt v (NInt MIN_OUTPUT_VALUE) then Returns None
    else if num_gt v (NInt MAX_OUTPUT_VALUE) then Returns None
    else total' <- num_add total v ;; outputs_loop rest total'.
Proof.
  intros Hj Hv. cbn [outputs_loop]. rewrite Hj. cbn [bind].
  unfold py_lt, py_gt. rewrite Hv. cbn [bind].
  destruct (num_lt v (NInt MIN_OUTPUT_VALUE)); [reflexivity|].
  now destruct (num_gt v (NInt MAX_OUTPUT_VALUE)).
Qed.

Lemma outputs_loop_spec (outputs : list json) :
  forall values total,
  output_values outputs = Some values ->
  (Forall passes values ->
   outputs_loop outputs total = t <- py_sum values total ;; Returns (Some t)) /\
  (forall t, outputs_loop outputs total = Returns (Some t) ->
             Forall passes values /\ py_sum values total = Returns t) /\
  (outputs_loop outputs total = Returns None -> ~ Forall passes values).
Proof.
  induction outputs as [|output rest IH]; intros values total Hv.
  - injection Hv as <-. cbn. split; [reflexivity|]. split.
    + intros t H. injection H as <-. split; [constructor | reflexivity].
    + discriminate.
  - cbn [output_values] in Hv.
    destruct (output_value output) as [v|] eqn:Ev; [|discriminate Hv].
    destruct (output_values rest) as [vs|] eqn:Evs; [|discriminate Hv].
    injection Hv as <-.
    destruct (output_value_Some output v Ev) as (j & Hj & Hn).
    rewrite (outputs_loop_step output rest j v total Hj Hn).
    cbn [py_sum].
    destruct (num_lt v (NInt MIN_OUTPUT_VALUE)) eqn:Elt.
    { split; [|split].
      - intro H. inversion H as [|? ? [Hp _] _]; subst. congruence.
      - discriminate.
      - intros _ H. inversion H as [|? ? [Hp _] _]; subst. congruence. }
    destruct (num_gt v (NInt MAX_OUTPUT_VALUE)) eqn:Egt.
    { split; [|split].
      - intro H. inversion H as [|? ? [_ Hp] _]; subst. congruence.
      - discriminate.
      - intros _ H. inversion H as [|? ? [_ Hp] _]; subst. congruence. }
    destruct (num_add total v) as [total'|e]; cbn [bind].
    + destruct (IH vs total' eq_refl) as (IH1 & IH2 & IH3).
      split; [|split].
      * intro H. inversion H; subst. now apply IH1.
      * intros t H. destruct (IH2 t H) as [HF Hs].
        split; [constructor; [now split | exact HF] | exact Hs].
      * intros H HF. inversion HF; subst. now apply IH3.
    + split; [|split].
      * reflexivity.
      * discriminate.
      * discriminate.
Qed.

Lemma inputs_loop_spec (inputs : list json) (b : bool) :
  inputs_loop inputs = Returns b ->
  (b = true <-> Exists coinbase_reference inputs).
Proof.
  induction inputs as [|input rest IH]; cbn [inputs_loop].
  - intro H. injection H as <-. split; [discriminate | intro E; inversion E].
  - destruct (getitem input (lit "txid")) as [t|e] eqn:Et; [|discriminate].
    cbn [bind].
    assert (Hrest : ~ coinbase_reference input ->
                    inputs_loop rest = Returns b ->
                    b = true <-> Exists coinbase_reference (input :: rest)).
    { intros Hno H. rewrite (IH H). split; [now right|].
      intro E. inversion E; subst; [contradiction | assumption]. }
    destruct (json_eq_str t (lit "0")) eqn:Es.
    + assert (Ht : t = JStr (lit "0")).
      { destruct t; try discriminate Es. unfold json_eq_str in Es.
        apply str_eqb_eq in Es. now subst. }
      subst t.
      destruct (getitem input (lit "vout")) as [v|e] eqn:Ev; [|discriminate].
      cbn [bind]. destruct (json_eq_int v (-1)) eqn:Ei.
      * intro H. injection H as <-. split; [|reflexivity].
        intros _. left. split; [exact Et | eauto].
      * apply Hrest. intros (_ & v' & Hv' & Hi). congruence.
    + apply Hrest. intros (Ht & _). rewrite Et in Ht. injection Ht as ->.
      unfold json_eq_str in Es. now rewrite str_eqb_refl in Es.
Qed.

Lemma inputs_loop_false (inputs : list json) :
  inputs_loop inputs = Returns false <->
  Forall input_readable inputs /\ ~ Exists coinbase_reference inputs.
Proof.
  induction inputs as [|input rest IH]; cbn [inputs_loop].
  - split; [|reflexivity]. intros _. split; [constructor | intro E; inversion E].
  - destruct (getitem input (lit "txid")) as [t|e] eqn:Et; cbn [bind].
    2:{ split; [discriminate|]. intros [HF _]. inversion HF as [|? ? (t & Ht & _) _].
        congruence. }
    assert (Hrest : ~ coinbase_reference input -> input_readable input ->
                    inputs_loop rest = Returns false <->
                    Forall input_readable (input :: rest) /\
                    ~ Exists coinbase_reference (input :: rest)).
    { intros Hno Hr. rewrite IH. split.
      - intros [HF HE]. split; [now constructor|].
        intro E. inversion E; subst; contradiction.
      - intros [HF HE]. inversion HF; subst. split; [assumption|].
        intro E. apply HE. now right. }
    destruct (json_eq_str t (lit "0")) eqn:Es.
    + assert (Ht : t = JStr (lit "0")).
      { destruct t; try discriminate Es. unfold json_eq_str in Es.
        apply str_eqb_eq in Es. now subst. }
      subst t.
      destruct (getitem input (lit "vout")) as [v|e] eqn:Ev; cbn [bind].
      2:{ split; [discriminate|]. intros [HF _].
          inversion HF as [|? ? (t & Ht & Hv) _]. subst.
          rewrite Et in Ht. injection Ht as <-.
          destruct (Hv eq_refl) as [v Hv']. congruence. }
      destruct (json_eq_int v (-1)) eqn:Ei.
      * split; [discriminate|]. intros [_ HE]. exfalso. apply HE. left.
        split; [exact Et | eauto].
      * apply Hrest.
        -- intros (_ & v' & Hv' & Hi). congruence.
        -- exists (JStr (lit "0")). split; [exact Et | eauto].
    + apply Hrest.
      * intros (Ht & _). rewrite Et in Ht. injection Ht as ->.
        unfold json_eq_str in Es. now rewrite str_eqb_refl in Es.
      * exists t. split; [exact Et|]. intros ->.
        unfold json_eq_str in Es. now rewrite str_eqb_refl in Es.
Qed.

Lemma Forall_passes (values : list num) :
  Forall passes values <->
  Forall (fun v => is_nan v = true \/
                   in_range MIN_OUTPUT_VALUE MAX_OUTPUT_VALUE v) values.
Proof.
  split; intro H; (eapply Forall_impl; [|exact H]); intros v Hv;
    now apply passes_iff.
Qed.

Lemma range_test (lo hi : Z) (n : num) :
  num_gt n (NInt hi) || num_lt n (NInt lo) = false <->
  is_nan n = true \/ in_range lo hi n.
Proof.
  rewrite <- passes_iff, orb_false_iff. tauto.
Qed.

(** The verdict of [validate_transaction] on a dictionary whose [vin] and
    [vout] are lists, whose outputs carry the numbers [values] and whose
    [locktime] is the number [lock]. *)
Lemma validate_transaction_json_unfold (transaction : json)
    (ins outs : list json) (values : list num) (l : json) (lock : num) :
  getitem transaction (lit "vin") = Returns (JList ins) ->
  getitem transaction (lit "vout") = Returns (JList outs) ->
  output_values outs = Some values ->
  getitem transaction (lit "locktime") = Returns l ->
  to_num l = Some lock ->
  validate_transaction_json transaction =
  if is_empty ins || is_empty outs then Returns (PyBool false)
  else
    total <- outputs_loop outs (NInt 0) ;;
    match total with
    | None => Returns (PyBool false)
    | Some total =>
        if num_gt total (NInt MAX_OUTPUT_VALUE) || num_lt total (NInt MIN_OUTPUT_VALUE)
        then Returns (PyBool false)
        else
          coinbase <- inputs_loop ins ;;
          if (coinbase : bool) then Returns (PyBool false)
          else if num_gt lock (NInt sys_maxsize) || num_lt lock (NInt 0)
          then Returns (PyBool false)
          else if Z.of_nat (length (dumps false transaction)) <? 100
          then Returns (PyBool false)
          else Returns PyNone
    end.
Proof.
  intros Hvin Hvout Hvals Hl Hlock.
  unfold validate_transaction_json. rewrite Hvin, Hvout.
  cbn [bind truth iterate].
  destruct ins as [|i ins]; [reflexivity|].
  destruct outs as [|o outs]; [reflexivity|].
  cbn [is_empty negb orb bind].
  destruct (outputs_loop (o :: outs) (NInt 0)) as [[total|]|e]; cbn [bind];
    try reflexivity.
  destruct (num_gt total (NInt MAX_OUTPUT_VALUE) || num_lt total (NInt MIN_OUTPUT_VALUE));
    [reflexivity|].
  destruct (inputs_loop (i :: ins)) as [[|]|e]; cbn [bind]; try reflexivity.
  rewrite Hl. cbn [bind]. unfold py_gt, py_lt. rewrite Hlock. cbn [bind].
  destruct (num_gt lock (NInt sys_maxsize)); cbn [bind orb]; [reflexivity|].
  destruct (num_lt lock (NInt 0)); reflexivity.
Qed.

(** X1. On a dictionary whose [vin] and [vout] are lists, whose outputs all
    carry a number and whose [locktime] is a number, [validate_transaction]
    returns nothing but [None] and [False], and it returns [None] exactly
    when both lists are non-empty, every output value and the total that the
    loop adds up are NaN or in [[0, 21000000]], every input can be read and
    none is a coinbase reference, the locktime is NaN or in
    [[0, sys.maxsize]], and the dump has at least 100 characters. *)
Theorem validate_transaction_json_rules (transaction : json)
    (ins outs : list json) (values : list num) (l : json) (lock : num) :
  getitem transaction (lit "vin") = Returns (JList ins) ->
  getitem transaction (lit "vout") = Returns (JList outs) ->
  output_values outs = Some values ->
  getitem transaction (lit "locktime") = Returns l ->
  to_num l = Some lock ->
  (forall r, validate_transaction_json transaction = Returns r ->
             r = PyNone \/ r = PyBool false) /\
  (validate_transaction_json transaction = Returns PyNone <->
   ins <> [] /\ outs <> [] /\ json_rules transaction ins values lock).
Proof.
  intros Hvin Hvout Hvals Hl Hlock.
  rewrite (validate_transaction_json_unfold transaction ins outs values l lock
             Hvin Hvout Hvals Hl Hlock).
  destruct (outputs_loop_spec outs values (NInt 0) Hvals) as (L1 & L2 & L3).
  split; [|split].
  - intro r.
    destruct (is_empty ins || is_empty outs);
      [intro H; injection H as <-; now right|].
    destruct (outputs_loop outs (NInt 0)) as [[total|]|e]; cbn [bind];
      [|intro H; injection H as <-; now right|discriminate].
    destruct (num_gt total (NInt MAX_OUTPUT_VALUE) || num_lt total (NInt MIN_OUTPUT_VALUE));
      [intro H; injection H as <-; now right|].
    destruct (inputs_loop ins) as [[|]|e]; cbn [bind];
      [intro H; injection H as <-; now right| |discriminate].
    destruct (num_gt lock (NInt sys_maxsize) || num_lt lock (NInt 0));
      [intro H; injection H as <-; now right|].
    destruct (Z.of_nat (length (dumps false transaction)) <? 100);
      intro H; injection H as <-; [now right | now left].
  - intro H.
    destruct ins as [|i ins]; [discriminate H|].
    destruct outs as [|o outs]; [discriminate H|].
    cbn [is_empty orb] in H.
    destruct (outputs_loop (o :: outs) (NInt 0)) as [[total|]|e] eqn:El;
      cbn [bind] in H; try discriminate H.
    destruct (L2 total eq_refl) as [HF Hs].
    destruct (num_gt total (NInt MAX_OUTPUT_VALUE) || num_lt total (NInt MIN_OUTPUT_VALUE))
      eqn:Et; [discriminate H|].
    destruct (inputs_loop (i :: ins)) as [[|]|e] eqn:Ei; cbn [bind] in H;
      try discriminate H.
    destruct (num_gt lock (NInt sys_maxsize) || num_lt lock (NInt 0)) eqn:Elk;
      [discriminate H|].
    destruct (Z.ltb_spec (Z.of_nat (length (dumps false transaction))) 100) as [Hsz|Hsz];
      [discriminate H|].
    apply inputs_loop_false in Ei. destruct Ei as [Hr Hc].
    split; [discriminate|]. split; [discriminate|].
    split; [now apply Forall_passes|].
    split; [exists total; split; [exact Hs | now apply range_test]|].
    split; [exact Hr|]. split; [exact Hc|].
    split; [now apply range_test | exact Hsz].
  - intros (Hi & Ho & HF & (total & Hs & Ht) & Hr & Hc & Hlk & Hsz).
    destruct ins as [|i ins]; [congruence|].
    destruct outs as [|o outs]; [congruence|].
    cbn [is_empty orb].
    rewrite (L1 (proj2 (Forall_passes values) HF)), Hs. cbn [bind].
    rewrite (proj2 (range_test _ _ total) Ht).
    rewrite (proj2 (inputs_loop_false (i :: ins)) (conj Hr Hc)). cbn [bind].
    rewrite (proj2 (range_test _ _ lock) Hlk).
    destruct (Z.ltb_spec (Z.of_nat (length (dumps false transaction))) 100) as [H|H];
      [lia | reflexivity].
Qed.

Lemma validate_transaction_json_rules_witness :
  (forall r, validate_transaction_json (small_tx_with (lit "ab")) = Returns r ->
             r = PyNone \/ r = PyBool false) /\
  (validate_transaction_json (small_tx_with (lit "ab")) = Returns PyNone <->
   [JDict [(lit "txid", JStr []); (lit "vout", JInt 0)]] <> [] /\
   [JDict [(lit "value", JInt 0)]] <> [] /\
   json_rules (small_tx_with (lit "ab"))
     [JDict [(lit "txid", JStr []); (lit "vout", JInt 0)]] [NInt 0] (NInt 0)).
Proof.
  exact (validate_transaction_json_rules (small_tx_with (lit "ab"))
           [JDict [(lit "txid", JStr []); (lit "vout", JInt 0)]]
           [JDict [(lit "value", JInt 0)]] [NInt 0] (JInt 0) (NInt 0)
           eq_refl eq_refl eq_refl eq_refl eq_refl).
Defined.

(** The rule on the size decides: [small_tx] passes every other test, its
    dump has 99 characters and it is rejected; with a two-character
    identifier the dump has 101 characters and the validator falls off its
    end. *)
Example small_tx_rejected :
  length (dumps false small_tx) = 99%nat /\
  validate_transaction_json small_tx = Returns (PyBool false) /\
  length (dumps false (small_tx_with (lit "ab"))) = 101%nat /\
  validate_transaction_json (small_tx_with (lit "ab")) = Returns PyNone.
Proof. repeat split; vm_compute; reflexivity. Qed.

(** What the validator does on values that are no transaction. *)
Example validate_transaction_json_raises :
  validate_transaction_json (JDict []) = Raises KeyError /\
  validate_transaction_json (JList []) = Raises TypeError /\
  validate_transaction_json (tx_with_values [JStr (lit "5")] (JInt 0))
  = Raises TypeError /\
  validate_transaction_json (tx_with_values [] (JInt 0)) = Returns (PyBool false).
Proof. repeat split; vm_compute; reflexivity. Qed.

(** ** The records are the dictionaries with every key and integer values *)

Lemma is_empty_map (A B : Type) (f : A -> B) (l : list A) :
  is_empty (map f l) = is_empty l.
Proof. now destruct l. Qed.

Lemma output_values_records (outputs : list tx_output) :
  output_values (map dict_of_output outputs)
  = Some (map (fun o => NInt (out_value o)) outputs).
Proof.
  induction outputs as [|o rest IH]; [reflexivity|].
  cbn [map output_values]. rewrite IH. reflexivity.
Qed.

Lemma outputs_loop_records (outputs : list tx_output) : forall total,
  outputs_loop (map dict_of_output outputs) (NInt total)
  = Returns (option_map NInt (sum_outputs outputs total)).
Proof.
  induction outputs as [|o rest IH]; intro total; [reflexivity|].
  cbn [map]. rewrite (outputs_loop_step _ _ (JInt (out_value o)) (NInt (out_value o)));
    [|reflexivity|reflexivity].
  cbn [sum_outputs]. rewrite num_lt_int, num_gt_int.
  destruct (out_value o <? MIN_OUTPUT_VALUE); [reflexivity|].
  destruct (out_value o >? MAX_OUTPUT_VALUE); [reflexivity|].
  cbn [orb num_add bind]. apply IH.
Qed.

Lemma json_eq_str_pyval (v : pyval) (s : str) :
  json_eq_str (json_of_pyval v) s = py_eq v (PyStr s).
Proof. now destruct v. Qed.

Lemma inputs_loop_records (inputs : list tx_input) :
  inputs_loop (map dict_of_input inputs)
  = Returns (existsb is_coinbase_reference inputs).
Proof.
  induction inputs as [|i rest IH]; [reflexivity|].
  cbn [map inputs_loop existsb]. unfold is_coinbase_reference at 1.
  replace (getitem (dict_of_input i) (lit "txid"))
    with (Returns (json_of_pyval (in_txid i))) by reflexivity.
  cbn [bind]. rewrite json_eq_str_pyval.
  destruct (py_eq (in_txid i) (PyStr (lit "0"))); cbn [andb orb]; [|exact IH].
  replace (getitem (dict_of_input i) (lit "vout"))
    with (Returns (JInt (in_vout i))) by reflexivity.
  cbn [bind]. unfold json_eq_int. cbn [to_num]. rewrite num_eq_int.
  destruct (in_vout i =? -1); cbn [orb]; [reflexivity | exact IH].
Qed.

(** On the dictionary of a record the validator returns what
    [validate_transaction] on the record gives, and raises nothing. *)
Lemma validate_transaction_records (t : transaction) :
  validate_transaction_json (dict_of_transaction t)
  = Returns (validate_transaction t).
Proof.
  rewrite (validate_transaction_json_unfold (dict_of_transaction t)
             (map dict_of_input (vin t)) (map dict_of_output (vout t))
             (map (fun o => NInt (out_value o)) (vout t))
             (JInt (locktime t)) (NInt (locktime t))
             eq_refl eq_refl (output_values_records (vout t)) eq_refl eq_refl).
  unfold validate_transaction. rewrite !is_empty_map.
  destruct (is_empty (vin t) || is_empty (vout t)); [reflexivity|].
  rewrite outputs_loop_records.
  destruct (sum_outputs (vout t) 0) as [total|]; cbn [option_map bind];
    [|reflexivity].
  rewrite !num_gt_int, !num_lt_int.
  destruct ((total >? MAX_OUTPUT_VALUE) || (total <? MIN_OUTPUT_VALUE));
    [reflexivity|].
  rewrite inputs_loop_records. cbn [bind].
  destruct (existsb is_coinbase_reference (vin t)); [reflexivity|].
  destruct ((locktime t >? sys_maxsize) || (locktime t <? 0)); [reflexivity|].
  destruct (Z.of_nat (length (dumps false (dict_of_transaction t))) <? 100);
    reflexivity.
Qed.

(** C1 (what the code does on a value that is no number in range). A
    transaction with one input and one output whose value is the float NaN,
    which [json.load] reads from the token [NaN], is not rejected: the tests
    [value < MIN_OUTPUT_VALUE], [value > MAX_OUTPUT_VALUE] and the two on
    the total are comparisons, all false on NaN, and the validator falls off
    its end, although the value is not in [[0, 21000000]] and neither is the
    total. The same holds for a locktime that is NaN. *)
Theorem validate_transaction_accepts_nan :
  (exists input output,
     getitem (tx_with_values [JFloat S754_nan] (JInt 0)) (lit "vin")
     = Returns (JList [input]) /\
     getitem (tx_with_values [JFloat S754_nan] (JInt 0)) (lit "vout")
     = Returns (JList [output]) /\
     output_value output = Some (NFloat S754_nan)) /\
  ~ in_range MIN_OUTPUT_VALUE MAX_OUTPUT_VALUE (NFloat S754_nan) /\
  py_sum [NFloat S754_nan] (NInt 0) = Returns (NFloat S754_nan) /\
  validate_transaction_json (tx_with_values [JFloat S754_nan] (JInt 0))
  = Returns PyNone /\
  ~ in_range 0 sys_maxsize (NFloat S754_nan) /\
  validate_transaction_json (tx_with_values [JInt 400000] (JFloat S754_nan))
  = Returns PyNone.
Proof.
  split; [do 2 eexists; repeat split; reflexivity|].
  split; [intros [H _]; discriminate H|].
  split; [reflexivity|].
  split; [vm_compute; reflexivity|].
  split; [intros [H _]; discriminate H|].
  vm_compute; reflexivity.
Qed.

(** Float addition rounds: two outputs of 21000000.0 and 1e-10 are each in
    range, the total that the loop adds up is 21000000.0, and the
    transaction is not rejected. *)
Example validate_transaction_rounded_total :
  float_repr float_21000000 = lit "21000000.0" /\
  float_repr float_1e_10 = lit "1e-10" /\
  py_sum [NFloat float_21000000; NFloat float_1e_10] (NInt 0)
  = Returns (NFloat float_21000000) /\
  validate_transaction_json
    (tx_with_values [JFloat float_21000000; JFloat float_1e_10] (JInt 0))
  = Returns PyNone.
Proof. repeat split; vm_compute; reflexivity. Qed.

(* ------------------------------------------------------------------ *)
(** ** The size of a transaction of the pool *)
(* ------------------------------------------------------------------ *)

Lemma json_escape_length (c : ascii) : (1 <= length (json_escape c))%nat.
Proof.
  unfold json_escape.
  repeat match goal with
         | |- context [if ?b then _ else _] => destruct b
         end; cbn [length]; lia.
Qed.

Lemma json_str_length (s : str) : (length s + 2 <= length (json_str s))%nat.
Proof.
  unfold json_str. cbn [length]. rewrite length_app. cbn [length].
  enough (length s <= length (flat_map json_escape s))%nat by lia.
  induction s as [|c s IH]; [reflexivity|].
  cbn [flat_map length]. rewrite length_app.
  pose proof (json_escape_length c). lia.
Qed.

Lemma weight_dumps (items : list (str * json)) :
  (weight items <= length (dumps false (JDict items)))%nat.
Proof.
  rewrite dumps_JDict. rewrite !length_app.
  change (length (lit "{")) with 1%nat. change (length (lit "}")) with 1%nat.
  destruct items as [|kv items]; [cbn; lia|].
  cbn [map join weight fold_right]. fold (weight items).
  rewrite length_app.
  assert (H : (item_size kv
               <= length (json_str (fst kv) ++ lit ": " ++ dumps false (snd kv)))%nat).
  { unfold item_size. rewrite !length_app.
    change (length (lit ": ")) with 2%nat. lia. }
  enough (weight items
          <= length (flat_map (fun y => lit ", " ++ y)
                       (map (fun kv => json_str (fst kv) ++ lit ": "
                                       ++ dumps false (snd kv)) items)))%nat by lia.
  clear H kv. induction items as [|kv items IH]; [reflexivity|].
  cbn [map flat_map weight fold_right]. fold (weight items).
  unfold item_size. rewrite !length_app.
  change (length (lit ", ")) with 2%nat. change (length (lit ": ")) with 2%nat.
  lia.
Qed.

Lemma weight_remove (k : str) (items : list (str * json)) :
  (weight (dict_remove k items) <= weight items)%nat.
Proof.
  induction items as [|kv items IH]; [reflexivity|].
  unfold dict_remove. cbn [filter].
  destruct (negb (str_eqb (fst kv) k)); cbn [weight fold_right];
    fold (weight items); fold (dict_remove k items);
    fold (weight (dict_remove k items)); lia.
Qed.

(** An item that is found counts in the weight, next to the others. *)
Lemma weight_get (k : str) (v : json) (items : list (str * json)) :
  dict_get k items = Some v ->
  (item_size (k, v) + 2 + weight (dict_remove k items) <= weight items)%nat.
Proof.
  induction items as [|[k' v'] items IH]; [discriminate|].
  cbn [dict_get]. unfold dict_remove. cbn [filter fst].
  fold (dict_remove k items).
  destruct (str_eqb k' k) eqn:E; cbn [negb].
  - intro H. injection H as ->. apply str_eqb_eq in E. subst k'.
    cbn [weight fold_right]. fold (weight items).
    pose proof (weight_remove k items). lia.
  - intro H. specialize (IH H).
    cbn [weight fold_right]. fold (weight items).
    fold (weight (dict_remove k items)). lia.
Qed.

Lemma dict_get_remove (k k' : str) (items : list (str * json)) :
  k' <> k -> dict_get k' (dict_remove k items) = dict_get k' items.
Proof.
  intro Hne. induction items as [|[k0 v0] items IH]; [reflexivity|].
  unfold dict_remove. cbn [filter fst]. fold (dict_remove k items).
  destruct (str_eqb k0 k) eqn:E; cbn [negb dict_get].
  - apply str_eqb_eq in E. subst k0.
    destruct (str_eqb k k') eqn:E'; [|exact IH].
    apply str_eqb_eq in E'. congruence.
  - now rewrite IH.
Qed.

Lemma getitem_dict (items : list (str * json)) (k : str) (v : json) :
  getitem (JDict items) k = Returns v -> dict_get k items = Some v.
Proof.
  unfold getitem. destruct (dict_get k items); [|discriminate].
  intro H. now injection H as ->.
Qed.

(** X2. The size test never rejects a transaction of the pool: a dictionary
    as [read_transactions_from_mempool] leaves it, with its identifier of
    64 digits under [txid], has a dump of at least 109 characters as soon
    as it has the keys [vin], [vout] and [locktime], which the validator
    reads before it looks at the size. *)
Theorem pool_transaction_size (data d a b c : json) :
  with_txid data = Returns d ->
  getitem d (lit "vin") = Returns a ->
  getitem d (lit "vout") = Returns b ->
  getitem d (lit "locktime") = Returns c ->
  109 <= Z.of_nat (length (dumps false d)) /\
  (Z.of_nat (length (dumps false d)) <? 100) = false.
Proof.
  intros Hd Ha Hb Hc.
  enough (H : (109 <= length (dumps false d))%nat).
  { split; [lia|]. apply Z.ltb_ge. lia. }
  destruct (with_txid_identified data d Hd)
    as (Hdict & Ht & _ & digest & Hdig & Hlen & _).
  destruct d as [| | | | | |items]; try discriminate Hdict.
  rewrite Hdig in Ht. unfold get in Ht.
  apply getitem_dict in Ha, Hb, Hc.
  pose proof (weight_dumps items) as W.
  pose proof (weight_get _ _ _ Ht) as W1.
  rewrite <- (dict_get_remove (lit "txid")) in Ha, Hb, Hc by discriminate.
  pose proof (weight_get _ _ _ Ha) as W2.
  rewrite <- (dict_get_remove (lit "vin")) in Hb, Hc by discriminate.
  pose proof (weight_get _ _ _ Hb) as W3.
  rewrite <- (dict_get_remove (lit "vout")) in Hc by discriminate.
  pose proof (weight_get _ _ _ Hc) as W4.
  unfold item_size in W1, W2, W3, W4. cbn [fst snd] in W1, W2, W3, W4.
  cbn [dumps] in W1.
  pose proof (json_str_length digest) as L0.
  pose proof (json_str_length (lit "txid")) as L1.
  pose proof (json_str_length (lit "vin")) as L2.
  pose proof (json_str_length (lit "vout")) as L3.
  pose proof (json_str_length (lit "locktime")) as L4.
  change (length (lit "txid")) with 4%nat in L1.
  change (length (lit "vin")) with 3%nat in L2.
  change (length (lit "vout")) with 4%nat in L3.
  change (length (lit "locktime")) with 8%nat in L4.
  lia.
Qed.

Lemma pool_transaction_size_witness :
  exists d, with_txid small_tx = Returns d /\
            109 <= Z.of_nat (length (dumps false d)) /\
            (Z.of_nat (length (dumps false d)) <? 100) = false.
Proof.
  eexists. split; [reflexivity|].
  apply (pool_transaction_size small_tx _
           (JList [JDict [(lit "txid", JStr []); (lit "vout", JInt 0)]])
           (JList [JDict [(lit "value", JInt 0)]]) (JInt 0));
    reflexivity.
Defined.

(** With its identifier [small_tx] has 163 characters, and the validator
    does not reject it. *)
Example small_tx_in_pool :
  (d <- with_txid small_tx ;;
   Returns (length (dumps false d), validate_transaction_json d))
  = Returns (163%nat, Returns PyNone).
Proof. vm_compute. reflexivity. Qed.

(* ------------------------------------------------------------------ *)
(** ** What the verdict depends on *)
(* ------------------------------------------------------------------ *)

(** X15. The validator reads [vin], [vout] and [locktime] and the length of
    the dump, nothing else: two loaded values that agree on what these three
    accesses give (a value or an exception) and on whether the dump has
    fewer than 100 characters get the same result, or raise the same
    exception. The other keys, [version] and [txid] among them, count
    through the length of the dump only. *)
Theorem validate_transaction_reads (t t' : json) :
  getitem t (lit "vin") = getitem t' (lit "vin") ->
  getitem t (lit "vout") = getitem t' (lit "vout") ->
  getitem t (lit "locktime") = getitem t' (lit "locktime") ->
  (Z.of_nat (length (dumps false t)) <? 100)
  = (Z.of_nat (length (dumps false t')) <? 100) ->
  validate_transaction_json t = validate_transaction_json t'.
Proof.
  intros Hvin Hvout Hlock Hsize.
  unfold validate_transaction_json. rewrite Hvin.
  destruct (getitem t' (lit "vin")) as [vin|e]; [|reflexivity].
  cbn [bind]. rewrite Hvout.
  destruct (negb (truth vin)); cbn [bind]; [reflexivity|].
  destruct (getitem t' (lit "vout")) as [vout|e]; [|reflexivity].
  cbn [bind]. destruct (negb (truth vout)); [reflexivity|].
  destruct (iterate vout) as [outputs|e]; [|reflexivity].
  cbn [bind]. destruct (outputs_loop outputs (NInt 0)) as [[total|]|e];
    cbn [bind]; try reflexivity.
  destruct (num_gt total (NInt MAX_OUTPUT_VALUE) || num_lt total (NInt MIN_OUTPUT_VALUE));
    [reflexivity|].
  destruct (iterate vin) as [inputs|e]; [|reflexivity].
  cbn [bind]. destruct (inputs_loop inputs) as [[|]|e]; cbn [bind];
    try reflexivity.
  rewrite Hlock.
  destruct (getitem t' (lit "locktime")) as [locktime|e]; [|reflexivity].
  cbn [bind]. destruct (py_gt locktime sys_maxsize) as [[|]|e]; cbn [bind];
    try reflexivity.
  destruct (py_lt locktime 0) as [[|]|e]; cbn [bind]; try reflexivity.
  cbv zeta. rewrite Hsize. reflexivity.
Qed.

Lemma validate_transaction_reads_witness :
  validate_transaction_json (small_tx_with (lit "ab"))
  = validate_transaction_json (small_tx_with (lit "abc")).
Proof.
  apply (validate_transaction_reads (small_tx_with (lit "ab"))
           (small_tx_with (lit "abc"))); reflexivity.
Defined.
